(** * Provision assembler of the CPU advisor (package [provisionassembler])

    A shallow embedding of [ProvisionAssemblerCommon.AssembleProvision] and of
    [getNumasReservedForReclaim], with the collaborators the two functions
    call, and the properties of the assembled [InternalCPUCalculationResult].

    Conventions of the embedding:
    - a Go [int] is a [Z]; every [+], [-] and [+=] of the source is written
      with the 64-bit two's-complement wrap-around of module [GoInt];
    - a Go [map] is a [gmap], a set is a [gset]; a [range] over the region
      map is a recursion over the regions in the order in which the loop
      visits them, so a statement that holds for every list holds for every
      iteration order Go may choose;
    - a function that returns [(value, error)] returns a pair whose second
      component is an [option error]; an index out of range is the outcome
      [Panicked], which is not a returned error;
    - the objects the assembler borrows from its caller are threaded through
      the call, so that what the call leaves behind can be compared with what
      it was given. *)

From Stdlib Require Import ZArith Lia.
From stdpp Require Import gmap strings list fin_maps sorting.

Open Scope Z_scope.

(** ** Go's [int] *)

Module GoInt.

Definition min_int : Z := - 2 ^ 63.
Definition max_int : Z := 2 ^ 63 - 1.

Definition in_range (z : Z) : Prop := min_int ≤ z ≤ max_int.

(** The representative of [z] in the signed 64-bit range. *)
Definition wrap (z : Z) : Z := (z + 2 ^ 63) mod 2 ^ 64 - 2 ^ 63.

Definition add (a b : Z) : Z := wrap (a + b).
Definition sub (a b : Z) : Z := wrap (a - b).

End GoInt.

(** ** Data model *)

(** [types.QoSRegionType].  The switch of [AssembleProvision] has a case for
    three region types and no default; every other type is one constructor. *)
Inductive QoSRegionType : Set :=
| QoSRegionTypeShare
| QoSRegionTypeIsolation
| QoSRegionTypeDedicatedNumaExclusive
| QoSRegionTypeOther.

(** [types.ControlKnobName]: the knob kinds the assembler reads. *)
Inductive ControlKnobName : Set :=
| ControlKnobNonReclaimedCPUSize
| ControlKnobNonReclaimedCPUSizeUpper
| ControlKnobNonReclaimedCPUSizeLower.

Global Instance ControlKnobName_eq_dec : EqDecision ControlKnobName.
Proof. solve_decision. Defined.

Global Instance ControlKnobName_countable : Countable ControlKnobName.
Proof.
  refine (inj_countable'
    (λ k, match k with
          | ControlKnobNonReclaimedCPUSize => 0%nat
          | ControlKnobNonReclaimedCPUSizeUpper => 1%nat
          | ControlKnobNonReclaimedCPUSizeLower => 2%nat
          end)
    (λ n, match n with
          | 0%nat => ControlKnobNonReclaimedCPUSize
          | 1%nat => ControlKnobNonReclaimedCPUSizeUpper
          | _ => ControlKnobNonReclaimedCPUSizeLower
          end) _).
  by intros [].
Defined.

(** [types.ControlKnobValue].  The source only ever reads [int(v.Value)];
    [Value] holds that integer. *)
Record ControlKnobValue : Set := { Value : Z }.

(** [types.ControlKnob] is a Go map; reading a knob that is not in the map
    yields the zero [ControlKnobValue]. *)
Definition knob (controlKnob : gmap ControlKnobName ControlKnobValue)
    (name : ControlKnobName) : ControlKnobValue :=
  default {| Value := 0 |} (controlKnob !! name).

(** [machine.CPUSet], here a set of NUMA ids. *)
Abbreviation CPUSet := (gset Z).

(** Modelled from the spec: [CPUSet.ToSliceInt] is not part of the sources at
    hand; it lists the ids of the set, here in increasing order.  Of the
    order, the assembler uses the first id only. *)
Definition ToSliceInt (s : CPUSet) : list Z := merge_sort Z.le (elements s).

(** Modelled from the spec: [types.PodSet] is not part of the sources at
    hand.  Section 3 of the specification has it as the set of workload
    identifiers assigned to a region. *)
Abbreviation PodSet := (gset string).

(** Modelled from the spec: [PodSet.Pods], the size check of section 6. *)
Definition Pods (podSet : PodSet) : Z := Z.of_nat (size podSet).

(** Modelled from the spec: [PodSet.PopAny] is not part of the sources at
    hand.  Section 9 asks for a direct element access without destructive
    "pop" semantics: the call hands back an element of the set (with the
    empty container name and [true]), or the zero values and [false] on the
    empty set, together with the pod set as the call leaves it, which is the
    pod set it was given. *)
Definition PopAny (podSet : PodSet) : (string * string * bool) * PodSet :=
  match elements podSet with
  | podUID :: _ => ((podUID, "", true), podSet)
  | [] => (("", "", false), podSet)
  end.

(** Go's [error] values the assembler can return: the error of a
    collaborator ([GetProvision], [PodEnableReclaim]), handed on as it is, or
    the error built at the pod-count check,
    [fmt.Errorf("more than one pod are assgined to numa exclusive region: %v", podSet)]. *)
Inductive error : Type :=
| CollaboratorError (msg : string)
| MoreThanOnePodError (podSet : PodSet).

(** [region.QoSRegion]: the methods the assembler calls, as fields. *)
Record QoSRegion : Type := {
  Name : string;
  OwnerPoolName : string;
  Type_ : QoSRegionType;
  GetBindingNumas : CPUSet;
  GetPods : PodSet;
  GetProvision : gmap ControlKnobName ControlKnobValue * option error
}.

(** The pod set of [r] after a call on it. *)
Definition withPods (r : QoSRegion) (podSet : PodSet) : QoSRegion :=
  {| Name := Name r; OwnerPoolName := OwnerPoolName r; Type_ := Type_ r;
     GetBindingNumas := GetBindingNumas r; GetPods := podSet;
     GetProvision := GetProvision r |}.

(** Modelled from the spec: [state.PoolNameReserve] is not part of the
    sources at hand; section 8 writes the pool as "reserve". *)
Definition PoolNameReserve : string := "reserve".

(** Modelled from the spec: [state.PoolNameReclaim] is not part of the
    sources at hand; section 8 writes the pool as "reclaim". *)
Definition PoolNameReclaim : string := "reclaim".

(** Modelled from the spec: [cpuadvisor.FakedNUMAID] is not part of the
    sources at hand; it is the reserved NUMA id of section 3 that stands for
    the whole node, an id no NUMA node has. *)
Definition FakedNUMAID : Z := -1.

(** [time.Time], as a number of ticks; the zero value is [0]. *)
Definition Time : Set := Z.

(** [types.InternalCPUCalculationResult].  A nil [PoolEntries] map reads as
    the empty map. *)
Record InternalCPUCalculationResult : Type := {
  PoolEntries : gmap string (gmap Z Z);
  TimeStamp : Time
}.

(** The zero value [types.InternalCPUCalculationResult{}]. *)
Definition zeroResult : InternalCPUCalculationResult :=
  {| PoolEntries := ∅; TimeStamp := 0 |}.

(** Modelled from the spec: [SetPoolEntry] is not part of the sources at
    hand.  It writes the pool entry (pool name, NUMA id, CPU count) into the
    result, whatever the count is. *)
Definition SetPoolEntry (poolName : string) (numaID poolSize : Z)
    (ic : InternalCPUCalculationResult) : InternalCPUCalculationResult :=
  {| PoolEntries :=
       <[poolName := <[numaID := poolSize]> (default ∅ (PoolEntries ic !! poolName))]>
         (PoolEntries ic);
     TimeStamp := TimeStamp ic |}.

(** The entry of a result for a pool and a NUMA id. *)
Definition poolEntry (ic : InternalCPUCalculationResult) (poolName : string)
    (numaID : Z) : option Z :=
  PoolEntries ic !! poolName ≫= λ entries, entries !! numaID.

(** Modelled from the spec: [metacache.MetaReader] is not part of the
    sources at hand; of the metadata, the assembler reads the sizes of the
    pools. *)
Record MetaReader : Type := { poolSizes : gmap string Z }.

(** Modelled from the spec: [GetPoolSize] is not part of the sources at hand;
    by section 6 it returns the size of the pool and whether the pool was
    found, the size of a pool that is not there being Go's zero. *)
Definition GetPoolSize (metaReader : MetaReader) (poolName : string) : Z * bool :=
  match poolSizes metaReader !! poolName with
  | Some size => (size, true)
  | None => (0, false)
  end.

(** Modelled from the spec: [helper.PodEnableReclaim] is not part of the
    sources at hand; it is the external policy lookup of section 6, from a
    workload and the node's default to whether reclaim is enabled for the
    workload, or an error.  The meta server is that lookup. *)
Record MetaServer : Type := {
  PodEnableReclaim : string → bool → bool * option error
}.

(** [config.Configuration], as far as the assembler reads it:
    [conf.GetDynamicConfiguration().EnableReclaim]. *)
Record Configuration : Set := { EnableReclaim : bool }.

(** [ProvisionAssemblerCommon].  The fields behind pointers are the caller's
    objects.  [regionMap] lists the regions of the map in the order in which
    the [range] statement of this call visits them. *)
Record ProvisionAssemblerCommon : Type := {
  conf : Configuration;
  regionMap : list QoSRegion;
  reservedForReclaim : gmap Z Z;
  numaAvailable : gmap Z Z;
  nonBindingNumas : CPUSet;
  metaReader : MetaReader;
  metaServer : MetaServer
}.

(** The assembler once the loop over the regions has left the regions as
    [regions]. *)
Definition withRegionMap (pa : ProvisionAssemblerCommon) (regions : list QoSRegion)
    : ProvisionAssemblerCommon :=
  {| conf := conf pa; regionMap := regions;
     reservedForReclaim := reservedForReclaim pa;
     numaAvailable := numaAvailable pa;
     nonBindingNumas := nonBindingNumas pa;
     metaReader := metaReader pa; metaServer := metaServer pa |}.

(** ** Helpers of the assembler *)

(** [getNumasReservedForReclaim]: the reservations of the NUMA ids of
    [numas], an id without a reservation adding nothing. *)
Definition getNumasReservedForReclaim (pa : ProvisionAssemblerCommon)
    (numas : CPUSet) : Z :=
  fold_left
    (λ res id, match reservedForReclaim pa !! id with
               | Some v => GoInt.add res v
               | None => res
               end)
    (ToSliceInt numas) 0.

(** Modelled from the spec: [getNumasAvailableResource] is not part of the
    sources at hand; by section 4.3 it sums the per-id map over the NUMA id
    set, a missing id counting as zero. *)
Definition getNumasAvailableResource (numaAvailable : gmap Z Z) (numas : CPUSet) : Z :=
  fold_left (λ res id, GoInt.add res (default 0 (numaAvailable !! id)))
    (ToSliceInt numas) 0.

(** Modelled from the spec: [general.SumUpMapValues] is not part of the
    sources at hand; it is the sum of the values of the map. *)
Definition SumUpMapValues (m : gmap string Z) : Z :=
  map_fold (λ _ v res, GoInt.add res v) 0 m.

(** Modelled from the spec: [general.MergeMapInt] is not part of the sources
    at hand; it merges two maps into a new one.  The specification merges
    maps with disjoint keys only; on a common key this model keeps the value
    of the second map. *)
Definition MergeMapInt (src override : gmap string Z) : gmap string Z :=
  override ∪ src.

(** ** The pool size regulator *)

(** Modelled from the spec: [regulatePoolSizes] is not part of the sources at
    hand.  Section 4.2: a demand whose total is at most [available] is
    returned unchanged with [boundUpper = true]; a demand whose total exceeds
    [available] is reduced by a deterministic rule, which the specification
    leaves to the implementation, and [boundUpper = false].  The rule is the
    parameter [reduce].  The Go function changes the map it is given; here it
    returns the map as the call leaves it. *)
Definition regulate (reduce : gmap string Z → Z → bool → gmap string Z)
    (demand : gmap string Z) (available : Z) (reclaimEnabled : bool)
    : gmap string Z * bool :=
  if decide (SumUpMapValues demand ≤ available)
  then (demand, true)
  else (reduce demand available reclaimEnabled, false).

(** The largest pool of a map, the first such pool in the order of the
    map. *)
Definition largestPool (sizes : gmap string Z) : option (string * Z) :=
  map_fold
    (λ name size best,
       match best with
       | Some (_, bestSize) => if decide (bestSize < size) then Some (name, size) else best
       | None => Some (name, size)
       end)
    None sizes.

(** Modelled from the spec: the reduction rule section 4.2 gives as an
    example.  Every size is scaled by [available / total] and floored, never
    below zero; what rounding leaves of [available] goes to the largest of
    the scaled pools. *)
Definition scaleDown (demand : gmap string Z) (available : Z) (_ : bool)
    : gmap string Z :=
  let total := SumUpMapValues demand in
  let scaled := (λ size, Z.max 0 (size * available / total)) <$> demand in
  let remainder := available - SumUpMapValues scaled in
  match largestPool scaled with
  | Some (name, size) =>
      if decide (0 < remainder) then <[name := size + remainder]> scaled else scaled
  | None => scaled
  end.

(** ** The assembler *)

(** The local variables of [AssembleProvision] that the loop over the regions
    reads and writes. *)
Record Locals : Type := {
  calculationResult : InternalCPUCalculationResult;
  shares : Z;
  isolationUppers : Z;
  sharePoolSizes : gmap string Z;
  isolationUpperSizes : gmap string Z;
  isolationLowerSizes : gmap string Z
}.

(** How one pass through the body of the loop ends: at the end of the body,
    at a [return] with an error, or in a run-time panic. *)
Inductive Flow : Type :=
| Continue (locals : Locals)
| Return (err : error)
| Panic.

(** What a call of [AssembleProvision] does: it returns its three results,
    or it panics. *)
Inductive Outcome : Type :=
| Returned (result : InternalCPUCalculationResult) (boundUpper : bool) (err : option error)
| Panicked.

(** [int(controlKnob[name].Value)] *)
Definition knobInt (controlKnob : gmap ControlKnobName ControlKnobValue)
    (name : ControlKnobName) : Z :=
  Value (knob controlKnob name).

(** The [QoSRegionTypeShare] case of the switch. *)
Definition caseShare (r : QoSRegion)
    (controlKnob : gmap ControlKnobName ControlKnobValue) (l : Locals) : Locals :=
  let sharePoolSizes' :=
    <[OwnerPoolName r := knobInt controlKnob ControlKnobNonReclaimedCPUSize]>
      (sharePoolSizes l) in
  {| calculationResult := calculationResult l;
     shares := GoInt.add (shares l) (default 0 (sharePoolSizes' !! OwnerPoolName r));
     isolationUppers := isolationUppers l;
     sharePoolSizes := sharePoolSizes';
     isolationUpperSizes := isolationUpperSizes l;
     isolationLowerSizes := isolationLowerSizes l |}.

(** The [QoSRegionTypeIsolation] case of the switch. *)
Definition caseIsolation (r : QoSRegion)
    (controlKnob : gmap ControlKnobName ControlKnobValue) (l : Locals) : Locals :=
  let isolationUpperSizes' :=
    <[Name r := knobInt controlKnob ControlKnobNonReclaimedCPUSizeUpper]>
      (isolationUpperSizes l) in
  let isolationLowerSizes' :=
    <[Name r := knobInt controlKnob ControlKnobNonReclaimedCPUSizeLower]>
      (isolationLowerSizes l) in
  {| calculationResult := calculationResult l;
     shares := shares l;
     isolationUppers :=
       GoInt.add (isolationUppers l) (default 0 (isolationUpperSizes' !! Name r));
     sharePoolSizes := sharePoolSizes l;
     isolationUpperSizes := isolationUpperSizes';
     isolationLowerSizes := isolationLowerSizes' |}.

(** [calculationResult.SetPoolEntry(poolName, numaID, poolSize)] on the
    result held in the locals. *)
Definition setEntry (poolName : string) (numaID poolSize : Z) (l : Locals) : Locals :=
  {| calculationResult := SetPoolEntry poolName numaID poolSize (calculationResult l);
     shares := shares l;
     isolationUppers := isolationUppers l;
     sharePoolSizes := sharePoolSizes l;
     isolationUpperSizes := isolationUpperSizes l;
     isolationLowerSizes := isolationLowerSizes l |}.

(** The [QoSRegionTypeDedicatedNumaExclusive] case of the switch; with the
    flow it yields the pod set of the region as the case leaves it. *)
Definition caseDedicatedNumaExclusive (pa : ProvisionAssemblerCommon)
    (nodeEnableReclaim : bool) (r : QoSRegion)
    (controlKnob : gmap ControlKnobName ControlKnobValue) (l : Locals)
    : Flow * PodSet :=
  match ToSliceInt (GetBindingNumas r) with
  | [] => (Panic, GetPods r)
  | regionNuma :: _ =>
      let reserved := getNumasReservedForReclaim pa (GetBindingNumas r) in
      let podSet := GetPods r in
      if decide (Pods podSet ≠ 1) then (Return (MoreThanOnePodError podSet), podSet)
      else
        let '((podUID, _, _), podSet) := PopAny podSet in
        match PodEnableReclaim (metaServer pa) podUID nodeEnableReclaim with
        | (_, Some err) => (Return err, podSet)
        | (enableReclaim, None) =>
            if negb enableReclaim then
              if decide (reserved > 0)
              then (Continue (setEntry PoolNameReclaim regionNuma reserved l), podSet)
              else (Continue l, podSet)
            else
              let available :=
                getNumasAvailableResource (numaAvailable pa) (GetBindingNumas r) in
              let nonReclaimRequirement :=
                knobInt controlKnob ControlKnobNonReclaimedCPUSize in
              let reclaimed :=
                GoInt.add (GoInt.sub available nonReclaimRequirement) reserved in
              (Continue (setEntry PoolNameReclaim regionNuma reclaimed l), podSet)
        end
  end.

(** The body of the [range] loop over the region map; with the flow it yields
    the region as the body leaves it. *)
Definition processRegion (pa : ProvisionAssemblerCommon) (nodeEnableReclaim : bool)
    (r : QoSRegion) (l : Locals) : Flow * QoSRegion :=
  match GetProvision r with
  | (_, Some err) => (Return err, r)
  | (controlKnob, None) =>
      match Type_ r with
      | QoSRegionTypeShare => (Continue (caseShare r controlKnob l), r)
      | QoSRegionTypeIsolation => (Continue (caseIsolation r controlKnob l), r)
      | QoSRegionTypeDedicatedNumaExclusive =>
          let '(flow, podSet) :=
            caseDedicatedNumaExclusive pa nodeEnableReclaim r controlKnob l in
          (flow, withPods r podSet)
      | QoSRegionTypeOther => (Continue l, r)
      end
  end.

(** The loop over the regions: it stops at the first body that does not
    reach its end.  With the flow it yields the regions as the loop leaves
    them. *)
Fixpoint rangeRegionMap (pa : ProvisionAssemblerCommon) (nodeEnableReclaim : bool)
    (regions : list QoSRegion) (l : Locals) : Flow * list QoSRegion :=
  match regions with
  | [] => (Continue l, [])
  | r :: regions' =>
      match processRegion pa nodeEnableReclaim r l with
      | (Continue l', r') =>
          let '(flow, regions'') := rangeRegionMap pa nodeEnableReclaim regions' l' in
          (flow, r' :: regions'')
      | (flow, r') => (flow, r' :: regions')
      end
  end.

(** The locals when the loop starts: the result holds the reserve pool
    entry; the flag of [GetPoolSize] is dropped. *)
Definition initLocals (pa : ProvisionAssemblerCommon) (now : Time) : Locals :=
  let calculationResult := {| PoolEntries := ∅; TimeStamp := now |} in
  let '(reservePoolSize, _) := GetPoolSize (metaReader pa) PoolNameReserve in
  {| calculationResult :=
       SetPoolEntry PoolNameReserve FakedNUMAID reservePoolSize calculationResult;
     shares := 0;
     isolationUppers := 0;
     sharePoolSizes := ∅;
     isolationUpperSizes := ∅;
     isolationLowerSizes := ∅ |}.

(** The available resource of the NUMA ids no region is bound to:
    [getNumasAvailableResource] of [numaAvailable] and [nonBindingNumas]. *)
Definition shareAndIsolatedPoolAvailable (pa : ProvisionAssemblerCommon) : Z :=
  getNumasAvailableResource (numaAvailable pa) (nonBindingNumas pa).

(** The map [shareAndIsolatePoolSizes] as it is handed to
    [regulatePoolSizes]. *)
Definition shareAndIsolatePoolSizes (pa : ProvisionAssemblerCommon) (l : Locals)
    : gmap string Z :=
  let sizes := MergeMapInt (sharePoolSizes l) (isolationUpperSizes l) in
  if decide (GoInt.add (shares l) (isolationUppers l) > shareAndIsolatedPoolAvailable pa)
  then MergeMapInt (sharePoolSizes l) (isolationLowerSizes l)
  else sizes.

(** [for poolName, poolSize := range shareAndIsolatePoolSizes]: one node-wide
    entry for every pool of the map. *)
Definition setRegulatedEntries (sizes : gmap string Z)
    (ic : InternalCPUCalculationResult) : InternalCPUCalculationResult :=
  map_fold (λ poolName poolSize ic, SetPoolEntry poolName FakedNUMAID poolSize ic)
    ic sizes.

(** The size of the reclaim pool on the NUMA ids no region is bound to. *)
Definition reclaimPoolSizeOfNonBindingNumas (pa : ProvisionAssemblerCommon)
    (nodeEnableReclaim : bool) (regulated : gmap string Z) : Z :=
  if nodeEnableReclaim
  then GoInt.add
         (GoInt.sub (shareAndIsolatedPoolAvailable pa) (SumUpMapValues regulated))
         (getNumasReservedForReclaim pa (nonBindingNumas pa))
  else getNumasReservedForReclaim pa (nonBindingNumas pa).

Section Assembler.

(** [regulatePoolSizes] of the package: from the map, the available total
    and the node's reclaim flag to the map as the call leaves it and
    [boundUpper]. *)
Variable regulatePoolSizes : gmap string Z → Z → bool → gmap string Z * bool.

(** The statements of [AssembleProvision] after the loop.  The log line
    among them has no part in the results and is left out. *)
Definition finish (pa : ProvisionAssemblerCommon) (nodeEnableReclaim : bool)
    (l : Locals) : InternalCPUCalculationResult * bool :=
  let '(regulated, boundUpper) :=
    regulatePoolSizes (shareAndIsolatePoolSizes pa l)
      (shareAndIsolatedPoolAvailable pa) nodeEnableReclaim in
  let calculationResult := setRegulatedEntries regulated (calculationResult l) in
  (SetPoolEntry PoolNameReclaim FakedNUMAID
     (reclaimPoolSizeOfNonBindingNumas pa nodeEnableReclaim regulated)
     calculationResult,
   boundUpper).

(** [AssembleProvision], called at time [now]: what the call does, and the
    assembler's borrowed objects as the call leaves them. *)
Definition AssembleProvision (pa : ProvisionAssemblerCommon) (now : Time)
    : Outcome * ProvisionAssemblerCommon :=
  let nodeEnableReclaim := EnableReclaim (conf pa) in
  let '(flow, regions) :=
    rangeRegionMap pa nodeEnableReclaim (regionMap pa) (initLocals pa now) in
  let pa' := withRegionMap pa regions in
  match flow with
  | Return err => (Returned zeroResult false (Some err), pa')
  | Panic => (Panicked, pa')
  | Continue l =>
      let '(calculationResult, boundUpper) := finish pa nodeEnableReclaim l in
      (Returned calculationResult boundUpper None, pa')
  end.

End Assembler.


(** ** Notions the statements use *)



(** The sum of a list of integers, and the exact sums the statements compare
    the wrap-around sums of the code with: of a per-id map over a set of NUMA
    ids, a missing id counting as zero, and of the sizes of a map of pools. *)
Definition total (sizes : list Z) : Z := foldr Z.add 0 sizes.

Definition sumOverNumas (m : gmap Z Z) (numas : CPUSet) : Z :=
  total ((λ id, default 0 (m !! id)) <$> elements numas).

Definition sumOfSizes (sizes : gmap string Z) : Z :=
  total ((map_to_list sizes).*2).

(** The key under which the loop records the demand of a region: the owner
    pool name of a share region, the name of an isolation region. *)
Definition demandKey (r : QoSRegion) : option string :=
  match Type_ r with
  | QoSRegionTypeShare => Some (OwnerPoolName r)
  | QoSRegionTypeIsolation => Some (Name r)
  | _ => None
  end.

Definition demandKeys (regions : list QoSRegion) : list string :=
  omap demandKey regions.

(** Two states of the locals that differ in the calculation result at most. *)
Definition sameDemand (l1 l2 : Locals) : Prop :=
  shares l1 = shares l2
  ∧ isolationUppers l1 = isolationUppers l2
  ∧ sharePoolSizes l1 = sharePoolSizes l2
  ∧ isolationUpperSizes l1 = isolationUpperSizes l2
  ∧ isolationLowerSizes l1 = isolationLowerSizes l2.


(** The running totals are the totals of the maps, and no pool is in both
    the share sizes and the isolation sizes. *)
Definition demandInv (l : Locals) : Prop :=
  shares l = SumUpMapValues (sharePoolSizes l)
  ∧ isolationUppers l = SumUpMapValues (isolationUpperSizes l)
  ∧ sharePoolSizes l ##ₘ isolationUpperSizes l.

(** The names under which [l] holds a demand. *)
Definition usedKeys (l : Locals) : gset string :=
  dom (sharePoolSizes l) ∪ dom (isolationUpperSizes l).

(** ** Concrete snapshots: the scenarios of section 8 of the specification *)

Module Scenario.

Definition knobs (size upper lower : Z) : gmap ControlKnobName ControlKnobValue :=
  {[ ControlKnobNonReclaimedCPUSize := {| Value := size |};
     ControlKnobNonReclaimedCPUSizeUpper := {| Value := upper |};
     ControlKnobNonReclaimedCPUSizeLower := {| Value := lower |} ]}.

(** A policy lookup that answers with the node's default. *)
Definition nodeDefault : MetaServer :=
  {| PodEnableReclaim := λ _ nodeEnableReclaim, (nodeEnableReclaim, None) |}.

(** A policy lookup that fails. *)
Definition lookupFails : MetaServer :=
  {| PodEnableReclaim := λ _ _, (false, Some (CollaboratorError "no such pod")) |}.

Definition shareRegion (owner : string) (size : Z) : QoSRegion :=
  {| Name := owner; OwnerPoolName := owner; Type_ := QoSRegionTypeShare;
     GetBindingNumas := ∅; GetPods := ∅;
     GetProvision := (knobs size 0 0, None) |}.

Definition dedicatedRegion (numas : CPUSet) (pods : PodSet) (size : Z) : QoSRegion :=
  {| Name := "dedicated"; OwnerPoolName := "dedicated";
     Type_ := QoSRegionTypeDedicatedNumaExclusive;
     GetBindingNumas := numas; GetPods := pods;
     GetProvision := (knobs size 0 0, None) |}.

(** A dedicated region without a pod whose [GetProvision] fails. *)
Definition brokenRegion : QoSRegion :=
  {| Name := "dedicated"; OwnerPoolName := "dedicated";
     Type_ := QoSRegionTypeDedicatedNumaExclusive;
     GetBindingNumas := {[ 0 ]}; GetPods := ∅;
     GetProvision := (∅, Some (CollaboratorError "no provision")) |}.

Definition assembler (enableReclaim : bool) (regions : list QoSRegion)
    (reserved available : gmap Z Z) (nonBinding : CPUSet) (reserve : gmap string Z)
    (lookup : MetaServer) : ProvisionAssemblerCommon :=
  {| conf := {| EnableReclaim := enableReclaim |};
     regionMap := regions;
     reservedForReclaim := reserved;
     numaAvailable := available;
     nonBindingNumas := nonBinding;
     metaReader := {| poolSizes := reserve |};
     metaServer := lookup |}.

(** One share region asking for 5 of the 10 CPUs of NUMA 1, reserve pool of
    size 2, node reclaim enabled. *)
Definition oneShare : ProvisionAssemblerCommon :=
  assembler true [shareRegion "share" 5]
    {[ 0 := 1; 1 := 1 ]} {[ 0 := 10; 1 := 10 ]} {[ 1 ]}
    {[ "reserve"%string := 2 ]} nodeDefault.

(** NUMA 0 bound to a dedicated region, reservation 3, reclaim disabled. *)
Definition oneDedicated (reservation : Z) : ProvisionAssemblerCommon :=
  assembler false [dedicatedRegion {[ 0 ]} {[ "pod"%string ]} 4]
    {[ 0 := reservation ]} {[ 0 := 10; 1 := 10 ]} {[ 1 ]} ∅ nodeDefault.

(** A share region followed by a dedicated region whose [GetProvision]
    fails. *)
Definition failing : ProvisionAssemblerCommon :=
  assembler true [shareRegion "share" 5; brokenRegion]
    {[ 0 := 1; 1 := 1 ]} {[ 0 := 10; 1 := 10 ]} {[ 1 ]}
    {[ "reserve"%string := 2 ]} nodeDefault.

(** The dedicated region without a pod whose [GetProvision] fails, alone. *)
Definition brokenOnly : ProvisionAssemblerCommon :=
  assembler true [brokenRegion]
    {[ 0 := 1; 1 := 1 ]} {[ 0 := 10; 1 := 10 ]} {[ 1 ]} ∅ nodeDefault.

(** A share region followed by a dedicated region bound to NUMA 0 that holds
    the pods [pods]. *)
Definition dedicatedWithPods (pods : PodSet) : ProvisionAssemblerCommon :=
  assembler true [shareRegion "share" 5; dedicatedRegion {[ 0 ]} pods 4]
    {[ 0 := 1; 1 := 1 ]} {[ 0 := 10; 1 := 10 ]} {[ 1 ]} ∅ nodeDefault.

(** A dedicated region that is bound to no NUMA id and holds no pod. *)
Definition unbound : ProvisionAssemblerCommon :=
  assembler true [shareRegion "share" 5; dedicatedRegion ∅ ∅ 4]
    {[ 0 := 1; 1 := 1 ]} {[ 0 := 10; 1 := 10 ]} {[ 1 ]} ∅ lookupFails.

(** A dedicated region on NUMA 0 that asks for 12 of its 10 CPUs, node
    reclaim enabled. *)
Definition overcommitted : ProvisionAssemblerCommon :=
  assembler true [dedicatedRegion {[ 0 ]} {[ "pod"%string ]} 12]
    {[ 0 := 1 ]} {[ 0 := 10; 1 := 10 ]} {[ 1 ]} ∅ nodeDefault.

(** Two share regions of one owner pool, the first with a size below
    zero; 7 CPUs on the non-binding NUMA 0. *)
Definition collidingShares : ProvisionAssemblerCommon :=
  assembler true [shareRegion "share" (-5); shareRegion "share" 10]
    ∅ {[ 0 := 7 ]} {[ 0 ]} ∅ nodeDefault.

End Scenario.

(** ** Further notions about the assembler *)

(** The loop of [getNumasReservedForReclaim] over a slice of NUMA ids, in
    whatever order the slice lists them. *)
Definition reservedOverSlice (pa : ProvisionAssemblerCommon) (ids : list Z) : Z :=
  fold_left
    (λ res id, match reservedForReclaim pa !! id with
               | Some v => GoInt.add res v
               | None => res
               end)
    ids 0.

(** The assembler with other reservations. *)
Definition withReserved (pa : ProvisionAssemblerCommon) (reserved : gmap Z Z)
    : ProvisionAssemblerCommon :=
  {| conf := conf pa; regionMap := regionMap pa;
     reservedForReclaim := reserved;
     numaAvailable := numaAvailable pa;
     nonBindingNumas := nonBindingNumas pa;
     metaReader := metaReader pa; metaServer := metaServer pa |}.

(** The regions whose body the loop passes to its end: the region's
    [GetProvision] returns no error and, for a region dedicated to a NUMA
    node, there is a binding NUMA id, the region holds one pod and the policy
    lookup for the pod returns no error. *)
Definition regionPasses (pa : ProvisionAssemblerCommon) (r : QoSRegion) : bool :=
  match (GetProvision r).2 with
  | Some _ => false
  | None =>
      match Type_ r with
      | QoSRegionTypeDedicatedNumaExclusive =>
          bool_decide (GetBindingNumas r ≠ ∅)
          && bool_decide (Pods (GetPods r) = 1)
          && match (PodEnableReclaim (metaServer pa) (PopAny (GetPods r)).1.1.1
                      (EnableReclaim (conf pa))).2 with
             | Some _ => false
             | None => true
             end
      | _ => true
      end
  end.

(** A call that returns its result without an error. *)
Definition succeeds (o : Outcome) : Prop :=
  ∃ result boundUpper, o = Returned result boundUpper None.

(** What a region writes: the size of its owner pool among the share sizes,
    the sizes under its name among the isolation sizes, or the reclaim entry
    of its first binding NUMA id. *)
Inductive Slot : Type :=
| ShareSlot (ownerPoolName : string)
| IsolationSlot (name : string)
| ReclaimSlot (numaID : Z).

Global Instance Slot_eq_dec : EqDecision Slot.
Proof. solve_decision. Defined.

Definition writtenSlot (r : QoSRegion) : option Slot :=
  match Type_ r with
  | QoSRegionTypeShare => Some (ShareSlot (OwnerPoolName r))
  | QoSRegionTypeIsolation => Some (IsolationSlot (Name r))
  | QoSRegionTypeDedicatedNumaExclusive =>
      ReclaimSlot <$> head (ToSliceInt (GetBindingNumas r))
  | QoSRegionTypeOther => None
  end.



(** The regions of a type the switch has no case for, whose [GetProvision]
    returns no error. *)
Definition unhandled (r : QoSRegion) : bool :=
  match Type_ r, (GetProvision r).2 with
  | QoSRegionTypeOther, None => true
  | _, _ => false
  end.

(** What a body that reaches its end does to the locals: the share case, the
    isolation case, one reclaim entry for the first binding NUMA id of the
    region, or nothing. *)
Definition effectShape (r : QoSRegion) (f : Locals → Locals) : Prop :=
  (Type_ r = QoSRegionTypeShare ∧ f = caseShare r (GetProvision r).1)
  ∨ (Type_ r = QoSRegionTypeIsolation ∧ f = caseIsolation r (GetProvision r).1)
  ∨ (∃ numaID poolSize,
       writtenSlot r = Some (ReclaimSlot numaID)
       ∧ f = setEntry PoolNameReclaim numaID poolSize)
  ∨ (demandKey r = None ∧ f = (λ l, l)).

(** The sizes the loop adds to [shares], one for each share region, and to
    [isolationUppers], one for each isolation region, in the order of the
    visits. *)
Definition shareSizes (regions : list QoSRegion) : list Z :=
  omap (λ r, match Type_ r with
             | QoSRegionTypeShare =>
                 Some (knobInt (GetProvision r).1 ControlKnobNonReclaimedCPUSize)
             | _ => None
             end) regions.

Definition isolationUpperBounds (regions : list QoSRegion) : list Z :=
  omap (λ r, match Type_ r with
             | QoSRegionTypeIsolation =>
                 Some (knobInt (GetProvision r).1 ControlKnobNonReclaimedCPUSizeUpper)
             | _ => None
             end) regions.

(** ** Further concrete snapshots *)

Module Snapshot.

(** An isolation region. *)
Definition isolationRegion (name : string) (upper lower : Z) : QoSRegion :=
  {| Name := name; OwnerPoolName := "isolation"; Type_ := QoSRegionTypeIsolation;
     GetBindingNumas := ∅; GetPods := ∅;
     GetProvision := (Scenario.knobs 0 upper lower, None) |}.

(** A region of a type the switch has no case for. *)
Definition otherRegion : QoSRegion :=
  {| Name := "other"; OwnerPoolName := "other"; Type_ := QoSRegionTypeOther;
     GetBindingNumas := ∅; GetPods := ∅;
     GetProvision := (∅, None) |}.

(** A share region, an isolation region, a region dedicated to NUMA 0 and a
    region of another type; NUMA 1 is bound to no region. *)
Definition mixedRegions : list QoSRegion :=
  [Scenario.shareRegion "share" 5; isolationRegion "isolation-1" 3 2;
   Scenario.dedicatedRegion {[ 0 ]} {[ "pod"%string ]} 4; otherRegion].

Definition mixed : ProvisionAssemblerCommon :=
  Scenario.assembler true mixedRegions
    {[ 0 := 1; 1 := 2 ]} {[ 0 := 10; 1 := 10 ]} {[ 1 ]}
    {[ "reserve"%string := 2 ]} Scenario.nodeDefault.

End Snapshot.

(** * The resource advisor wrapper (package [resource]) *)

Module Registry.

(** [resource.Quantity], as an amount; the zero value is [0]. *)
Definition Quantity : Set := Z.

(** The errors of the wrapper: an error of a collaborator (a constructor of a
    sub advisor, or a sub advisor), handed on as it is, and the four errors
    the wrapper builds with [fmt.Errorf], each with the values it formats:
    "new sub resource advisor for %v failed: %v",
    "try to new unknown resource advisor: %v",
    "no sub resource advisor for %v" and "illegal resource %v". *)
Inductive AdvisorError : Type :=
| SubAdvisorError (msg : string)
| NewSubAdvisorFailed (resourceName : string) (err : AdvisorError)
| UnknownResourceAdvisor (resourceName : string)
| NoSubResourceAdvisor (resourceName : string)
| IllegalResource (resourceName : string).

(** [SubResourceAdvisor]: of its methods, the wrapper calls [GetHeadroom] for
    a result; the field holds what the call returns. *)
Record SubResourceAdvisor : Type := {
  SubName : string;
  SubGetHeadroom : Quantity * option AdvisorError
}.

(** A value of the interface type is an advisor or nil. *)
Abbreviation SubAdvisorValue := (option SubResourceAdvisor).

(** What the wrapper takes from other packages: the resource names of
    package [types] and of the Kubernetes API, and the constructors of the
    two sub advisors, each as what it returns for the arguments
    [NewResourceAdvisor] is called with. *)
Record Packages : Type := {
  QoSResourceCPU : string;
  QoSResourceMemory : string;
  ResourceCPU : string;
  ResourceMemory : string;
  NewCPUResourceAdvisor : SubAdvisorValue * option AdvisorError;
  NewMemoryResourceAdvisor : SubAdvisorValue * option AdvisorError
}.

(** A call that returns, or panics. *)
Inductive Call (A : Type) : Type :=
| Returns (a : A)
| Panics.
Arguments Returns {A} a.
Arguments Panics {A}.

(** [resourceAdvisorWrapper] *)
Record resourceAdvisorWrapper : Type := {
  subAdvisorsToRun : gmap string SubAdvisorValue
}.

(** [NewSubResourceAdvisor] *)
Definition NewSubResourceAdvisor (pkg : Packages) (resourceName : string)
    : SubAdvisorValue * option AdvisorError :=
  if decide (resourceName = QoSResourceCPU pkg) then NewCPUResourceAdvisor pkg
  else if decide (resourceName = QoSResourceMemory pkg) then NewMemoryResourceAdvisor pkg
  else (None, Some (UnknownResourceAdvisor resourceName)).

(** The loop of [NewResourceAdvisor] over [conf.ResourceAdvisors], from the
    sub advisors registered so far; it returns at the first name whose sub
    advisor cannot be made. *)
Fixpoint newSubAdvisors (pkg : Packages) (resourceAdvisors : list string)
    (subAdvisors : gmap string SubAdvisorValue)
    : option resourceAdvisorWrapper * option AdvisorError :=
  match resourceAdvisors with
  | [] => (Some {| subAdvisorsToRun := subAdvisors |}, None)
  | resourceName :: rest =>
      match NewSubResourceAdvisor pkg resourceName with
      | (_, Some err) => (None, Some (NewSubAdvisorFailed resourceName err))
      | (subAdvisor, None) =>
          newSubAdvisors pkg rest (<[resourceName := subAdvisor]> subAdvisors)
      end
  end.

(** [NewResourceAdvisor]: the wrapper, or nil and an error. *)
Definition NewResourceAdvisor (pkg : Packages) (resourceAdvisors : list string)
    : option resourceAdvisorWrapper * option AdvisorError :=
  newSubAdvisors pkg resourceAdvisors ∅.

(** [GetSubAdvisor] *)
Definition GetSubAdvisor (ra : resourceAdvisorWrapper) (resourceName : string)
    : SubAdvisorValue * option AdvisorError :=
  match subAdvisorsToRun ra !! resourceName with
  | Some subAdvisor => (subAdvisor, None)
  | None => (None, Some (NoSubResourceAdvisor resourceName))
  end.

(** [getSubAdvisorHeadroom]; the call of [GetHeadroom] on a nil sub advisor
    panics. *)
Definition getSubAdvisorHeadroom (ra : resourceAdvisorWrapper) (resourceName : string)
    : Call (Quantity * option AdvisorError) :=
  match subAdvisorsToRun ra !! resourceName with
  | None => Returns (0, Some (NoSubResourceAdvisor resourceName))
  | Some (Some subAdvisor) => Returns (SubGetHeadroom subAdvisor)
  | Some None => Panics
  end.

(** [GetHeadroom] *)
Definition GetHeadroom (pkg : Packages) (ra : resourceAdvisorWrapper)
    (resourceName : string) : Call (Quantity * option AdvisorError) :=
  if decide (resourceName = ResourceCPU pkg)
  then getSubAdvisorHeadroom ra (QoSResourceCPU pkg)
  else if decide (resourceName = ResourceMemory pkg)
  then getSubAdvisorHeadroom ra (QoSResourceMemory pkg)
  else Returns (0, Some (IllegalResource resourceName)).

(** The names of the upstream packages, and two sub advisors. *)
Definition cpuAdvisor : SubResourceAdvisor :=
  {| SubName := "cpu-advisor"; SubGetHeadroom := (12, None) |}.

Definition memoryAdvisor : SubResourceAdvisor :=
  {| SubName := "memory-advisor";
     SubGetHeadroom := (0, Some (SubAdvisorError "no headroom yet")) |}.

Definition upstream : Packages :=
  {| QoSResourceCPU := "cpu"; QoSResourceMemory := "memory";
     ResourceCPU := "cpu"; ResourceMemory := "memory";
     NewCPUResourceAdvisor := (Some cpuAdvisor, None);
     NewMemoryResourceAdvisor := (Some memoryAdvisor, None) |}.

End Registry.

(** * Properties *)

(** ** Wrap-around arithmetic *)

Module GoIntFacts.

Import GoInt.

Lemma wrap_in_range z : in_range (wrap z).
Proof.
  unfold in_range, wrap, min_int, max_int.
  pose proof (Z.mod_pos_bound (z + 2 ^ 63) (2 ^ 64)). lia.
Qed.

Lemma wrap_id z : in_range z → wrap z = z.
Proof.
  unfold in_range, wrap, min_int, max_int. intros Hz.
  rewrite Z.mod_small; lia.
Qed.

Lemma wrap_wrap z : wrap (wrap z) = wrap z.
Proof. apply wrap_id, wrap_in_range. Qed.

Lemma wrap_add_l a b : wrap (wrap a + b) = wrap (a + b).
Proof.
  unfold wrap.
  replace ((a + 2 ^ 63) mod 2 ^ 64 - 2 ^ 63 + b + 2 ^ 63)
    with ((a + 2 ^ 63) mod 2 ^ 64 + b) by lia.
  rewrite Zplus_mod_idemp_l. do 2 f_equal. lia.
Qed.

Lemma wrap_add_r a b : wrap (a + wrap b) = wrap (a + b).
Proof. rewrite (Z.add_comm a), wrap_add_l. f_equal. lia. Qed.

Lemma wrap_sub_l a b : wrap (wrap a - b) = wrap (a - b).
Proof. unfold Z.sub. apply wrap_add_l. Qed.

Lemma wrap_sub_r a b : wrap (a - wrap b) = wrap (a - b).
Proof.
  unfold wrap. assert (2 ^ 64 = 2 * 2 ^ 63) as Hpow by reflexivity.
  replace (a - ((b + 2 ^ 63) mod 2 ^ 64 - 2 ^ 63) + 2 ^ 63)
    with (a + 2 ^ 64 - (b + 2 ^ 63) mod 2 ^ 64) by lia.
  rewrite Zminus_mod_idemp_r.
  do 2 f_equal. lia.
Qed.

Lemma add_comm a b : add a b = add b a.
Proof. unfold add. f_equal. lia. Qed.

Lemma add_assoc a b c : add (add a b) c = add a (add b c).
Proof. unfold add. rewrite wrap_add_l, wrap_add_r. f_equal. lia. Qed.

Lemma add_swap_r a b c : add (add a b) c = add (add a c) b.
Proof. unfold add. rewrite !wrap_add_l. f_equal. lia. Qed.

Lemma add_0_r a : in_range a → add a 0 = a.
Proof. intros. unfold add. rewrite Z.add_0_r. by apply wrap_id. Qed.

Lemma add_0_l a : in_range a → add 0 a = a.
Proof. intros. rewrite add_comm. by apply add_0_r. Qed.

Lemma add_in_range a b : in_range (add a b).
Proof. apply wrap_in_range. Qed.

Lemma sub_in_range a b : in_range (sub a b).
Proof. apply wrap_in_range. Qed.

Lemma add_exact a b : in_range (a + b) → add a b = a + b.
Proof. apply wrap_id. Qed.

Lemma sub_exact a b : in_range (a - b) → sub a b = a - b.
Proof. apply wrap_id. Qed.

End GoIntFacts.

(** ** The slice of a NUMA id set *)

Lemma ToSliceInt_Permutation (s : CPUSet) : ToSliceInt s ≡ₚ elements s.
Proof. apply merge_sort_Permutation. Qed.

Lemma ToSliceInt_nil (s : CPUSet) : ToSliceInt s = [] ↔ s = ∅.
Proof.
  split.
  - intros Hnil. apply leibniz_equiv, elements_empty_inv, Permutation_nil_r.
    by rewrite <- ToSliceInt_Permutation, Hnil.
  - intros ->. unfold ToSliceInt. by rewrite elements_empty.
Qed.

Lemma ToSliceInt_singleton (n : Z) : ToSliceInt {[ n ]} = [n].
Proof. unfold ToSliceInt. by rewrite elements_singleton. Qed.

(** ** The loop over the regions *)



Lemma PopAny_singleton (podUID : string) :
  PopAny {[ podUID ]} = ((podUID, "", true), {[ podUID ]}).
Proof. unfold PopAny. by rewrite elements_singleton. Qed.




(** The flow of the loop, step by step. *)
Lemma rangeRegionMap_cons pa nodeEnableReclaim r regions l :
  (rangeRegionMap pa nodeEnableReclaim (r :: regions) l).1 =
  match (processRegion pa nodeEnableReclaim r l).1 with
  | Continue l' => (rangeRegionMap pa nodeEnableReclaim regions l').1
  | flow => flow
  end.
Proof.
  cbn [rangeRegionMap].
  destruct (processRegion pa nodeEnableReclaim r l) as [[l'| |] r']; try done.
  cbn [fst]. by destruct (rangeRegionMap pa nodeEnableReclaim regions l').
Qed.

Lemma rangeRegionMap_app pa nodeEnableReclaim pre post l l' :
  (rangeRegionMap pa nodeEnableReclaim pre l).1 = Continue l' →
  (rangeRegionMap pa nodeEnableReclaim (pre ++ post) l).1 =
  (rangeRegionMap pa nodeEnableReclaim post l').1.
Proof.
  revert l. induction pre as [|r pre IH]; intros l.
  - simpl. by intros [= ->].
  - rewrite <- app_comm_cons, !rangeRegionMap_cons.
    destruct (processRegion pa nodeEnableReclaim r l).1; try done. apply IH.
Qed.

(** The outcome of a call, from the flow of its loop. *)
Lemma AssembleProvision_outcome regulatePoolSizes pa now :
  (AssembleProvision regulatePoolSizes pa now).1 =
  match (rangeRegionMap pa (EnableReclaim (conf pa)) (regionMap pa) (initLocals pa now)).1 with
  | Continue l =>
      let '(calculationResult, boundUpper) :=
        finish regulatePoolSizes pa (EnableReclaim (conf pa)) l in
      Returned calculationResult boundUpper None
  | Return err => Returned zeroResult false (Some err)
  | Panic => Panicked
  end.
Proof.
  unfold AssembleProvision.
  destruct (rangeRegionMap pa (EnableReclaim (conf pa)) (regionMap pa) (initLocals pa now))
    as [[l| |] regions]; try done.
  simpl. by destruct (finish regulatePoolSizes pa (EnableReclaim (conf pa)) l).
Qed.


(** ** The sums of the code and the exact sums *)

Lemma total_Permutation (l1 l2 : list Z) : l1 ≡ₚ l2 → total l1 = total l2.
Proof.
  unfold total. induction 1 as [|x l1 l2 _ IH|x y l|l1 l2 l3 _ IH1 _ IH2]; simpl.
  - done.
  - by rewrite IH.
  - lia.
  - by rewrite IH1.
Qed.

Lemma fold_left_add_total (f : Z → Z) (ids : list Z) (res : Z) :
  GoInt.in_range res →
  fold_left (λ res id, GoInt.add res (f id)) ids res =
  GoInt.wrap (res + total (f <$> ids)).
Proof.
  revert res. induction ids as [|id ids IH]; intros res Hres.
  - cbn. rewrite Z.add_0_r. symmetry. by apply GoIntFacts.wrap_id.
  - change (total (f <$> id :: ids)) with (f id + total (f <$> ids)).
    cbn [fold_left]. rewrite IH by apply GoIntFacts.add_in_range.
    unfold GoInt.add. rewrite GoIntFacts.wrap_add_l. f_equal. lia.
Qed.

Lemma getNumasAvailableResource_total (available : gmap Z Z) (numas : CPUSet) :
  getNumasAvailableResource available numas = GoInt.wrap (sumOverNumas available numas).
Proof.
  unfold getNumasAvailableResource, sumOverNumas.
  rewrite fold_left_add_total by (by vm_compute). rewrite Z.add_0_l. f_equal.
  apply total_Permutation. by rewrite ToSliceInt_Permutation.
Qed.

(** Skipping an id without a reservation is adding zero for it. *)
Lemma fold_left_reserved (reserved : gmap Z Z) (ids : list Z) (res : Z) :
  GoInt.in_range res →
  fold_left
    (λ res id, match reserved !! id with
               | Some v => GoInt.add res v
               | None => res
               end) ids res =
  fold_left (λ res id, GoInt.add res (default 0 (reserved !! id))) ids res.
Proof.
  revert res. induction ids as [|id ids IH]; intros res Hres; [done|].
  cbn [fold_left]. destruct (reserved !! id) as [v|]; cbn [default].
  - apply IH, GoIntFacts.add_in_range.
  - rewrite GoIntFacts.add_0_r by done. by apply IH.
Qed.

Lemma getNumasReservedForReclaim_total pa (numas : CPUSet) :
  getNumasReservedForReclaim pa numas =
  GoInt.wrap (sumOverNumas (reservedForReclaim pa) numas).
Proof.
  rewrite <- getNumasAvailableResource_total.
  apply fold_left_reserved. by vm_compute.
Qed.

Lemma SumUpMapValues_total (sizes : gmap string Z) :
  SumUpMapValues sizes = GoInt.wrap (sumOfSizes sizes).
Proof.
  unfold SumUpMapValues, sumOfSizes. rewrite map_fold_foldr.
  induction (map_to_list sizes) as [|[name size] entries IH]; [done|].
  change (total ((name, size) :: entries).*2) with (size + total entries.*2).
  cbn [foldr uncurry]. rewrite IH. unfold GoInt.add.
  rewrite GoIntFacts.wrap_add_l. f_equal. lia.
Qed.

(** ** The body of the loop, case by case *)

Lemma processRegion_provision_error pa nodeEnableReclaim r l err :
  (GetProvision r).2 = Some err →
  (processRegion pa nodeEnableReclaim r l).1 = Return err.
Proof.
  unfold processRegion. destruct (GetProvision r) as [controlKnob [err'|]]; [|done].
  by intros [= ->].
Qed.

Lemma processRegion_dedicated pa nodeEnableReclaim r l :
  (GetProvision r).2 = None →
  Type_ r = QoSRegionTypeDedicatedNumaExclusive →
  (processRegion pa nodeEnableReclaim r l).1 =
  (caseDedicatedNumaExclusive pa nodeEnableReclaim r (GetProvision r).1 l).1.
Proof.
  unfold processRegion. destruct (GetProvision r) as [controlKnob [err|]]; [done|].
  intros _ ->. cbn [fst].
  by destruct (caseDedicatedNumaExclusive pa nodeEnableReclaim r controlKnob l).
Qed.

Lemma caseDedicatedNumaExclusive_panic pa nodeEnableReclaim r controlKnob l :
  (caseDedicatedNumaExclusive pa nodeEnableReclaim r controlKnob l).1 = Panic
  ↔ GetBindingNumas r = ∅.
Proof.
  rewrite <- ToSliceInt_nil. unfold caseDedicatedNumaExclusive.
  destruct (ToSliceInt (GetBindingNumas r)) as [|regionNuma ?]; [done|].
  split; [|done]. case_decide; [done|].
  destruct (PopAny (GetPods r)) as [[[podUID ?] ?] podSet].
  destruct (PodEnableReclaim (metaServer pa) podUID nodeEnableReclaim) as [enable [err|]];
    [done|].
  destruct enable; simpl; [done|]. by case_decide.
Qed.

Lemma caseDedicatedNumaExclusive_pod_count pa nodeEnableReclaim r controlKnob l :
  GetBindingNumas r ≠ ∅ →
  Pods (GetPods r) ≠ 1 →
  (caseDedicatedNumaExclusive pa nodeEnableReclaim r controlKnob l).1 =
  Return (MoreThanOnePodError (GetPods r)).
Proof.
  rewrite <- ToSliceInt_nil. unfold caseDedicatedNumaExclusive. intros Hnuma Hpods.
  destruct (ToSliceInt (GetBindingNumas r)) as [|regionNuma ?]; [done|].
  by case_decide.
Qed.

Lemma caseDedicatedNumaExclusive_lookup_error pa nodeEnableReclaim r controlKnob l err :
  GetBindingNumas r ≠ ∅ →
  Pods (GetPods r) = 1 →
  (PodEnableReclaim (metaServer pa) (PopAny (GetPods r)).1.1.1 nodeEnableReclaim).2
    = Some err →
  (caseDedicatedNumaExclusive pa nodeEnableReclaim r controlKnob l).1 = Return err.
Proof.
  rewrite <- ToSliceInt_nil. unfold caseDedicatedNumaExclusive. intros Hnuma Hpods.
  destruct (ToSliceInt (GetBindingNumas r)) as [|regionNuma ?]; [done|].
  case_decide; [done|].
  destruct (PopAny (GetPods r)) as [[[podUID ?] ?] podSet]. cbn [fst].
  destruct (PodEnableReclaim (metaServer pa) podUID nodeEnableReclaim) as [enable [err'|]];
    [|done].
  by intros [= ->].
Qed.

(** A loop that reaches a body which does not come to its end ends as that
    body does. *)
Lemma rangeRegionMap_stops pa nodeEnableReclaim pre r post l l' :
  (rangeRegionMap pa nodeEnableReclaim pre l).1 = Continue l' →
  (∀ l'', (processRegion pa nodeEnableReclaim r l').1 ≠ Continue l'') →
  (rangeRegionMap pa nodeEnableReclaim (pre ++ r :: post) l).1 =
  (processRegion pa nodeEnableReclaim r l').1.
Proof.
  intros Hpre Hstop. rewrite (rangeRegionMap_app _ _ _ _ _ _ Hpre), rangeRegionMap_cons.
  destruct (processRegion pa nodeEnableReclaim r l').1 as [l''| |]; try done.
  by destruct (Hstop l'').
Qed.

(** ** Failure of a step *)

(** A call that returns an error returns the zero-value result and
    [boundUpper = false] with it. *)
Lemma AssembleProvision_error regulatePoolSizes pa now result boundUpper err :
  (AssembleProvision regulatePoolSizes pa now).1 = Returned result boundUpper (Some err) →
  result = zeroResult ∧ boundUpper = false.
Proof.
  rewrite AssembleProvision_outcome.
  destruct (rangeRegionMap pa _ (regionMap pa) (initLocals pa now)).1 as [l| |];
    [|by intros [= <- <- _]|done].
  by destruct (finish regulatePoolSizes pa (EnableReclaim (conf pa)) l).
Qed.

(** C1.  When the loop reaches a region at which a step fails, that is, the
    region's [GetProvision] returns an error, or the region is dedicated to a
    NUMA node and the pod-count check fails, or the check passes and the
    reclaim-policy lookup for the pod returns an error, then
    [AssembleProvision] returns the zero-value result, [boundUpper = false]
    and that error.  The zero-value result holds no pool entry, so none of
    the entries written before the failure is in it; and no call returns an
    error with anything but the zero-value result and [boundUpper = false]. *)
Theorem AssembleProvision_failure
    (regulatePoolSizes : gmap string Z → Z → bool → gmap string Z * bool)
    (pa : ProvisionAssemblerCommon) (now : Time)
    (pre : list QoSRegion) (r : QoSRegion) (post : list QoSRegion)
    (l : Locals) (err : error) :
  regionMap pa = pre ++ r :: post →
  (rangeRegionMap pa (EnableReclaim (conf pa)) pre (initLocals pa now)).1 = Continue l →
  ((GetProvision r).2 = Some err
   ∨ ((GetProvision r).2 = None
      ∧ Type_ r = QoSRegionTypeDedicatedNumaExclusive
      ∧ GetBindingNumas r ≠ ∅
      ∧ Pods (GetPods r) ≠ 1
      ∧ err = MoreThanOnePodError (GetPods r))
   ∨ ((GetProvision r).2 = None
      ∧ Type_ r = QoSRegionTypeDedicatedNumaExclusive
      ∧ GetBindingNumas r ≠ ∅
      ∧ Pods (GetPods r) = 1
      ∧ (PodEnableReclaim (metaServer pa) (PopAny (GetPods r)).1.1.1
           (EnableReclaim (conf pa))).2 = Some err)) →
  (AssembleProvision regulatePoolSizes pa now).1 = Returned zeroResult false (Some err)
  ∧ (∀ poolName numaID, poolEntry zeroResult poolName numaID = None)
  ∧ (∀ result boundUpper err',
       (AssembleProvision regulatePoolSizes pa now).1
         = Returned result boundUpper (Some err') →
       result = zeroResult ∧ boundUpper = false).
Proof.
  intros Hregions Hpre Hfails.
  split; [|split; [done|apply AssembleProvision_error]].
  assert ((processRegion pa (EnableReclaim (conf pa)) r l).1 = Return err) as Hstep.
  { destruct Hfails as [Hprov | [(Hprov & Htype & Hnuma & Hpods & ->)
                                | (Hprov & Htype & Hnuma & Hpods & Hlookup)]].
    - by apply processRegion_provision_error.
    - rewrite processRegion_dedicated by done.
      by apply caseDedicatedNumaExclusive_pod_count.
    - rewrite processRegion_dedicated by done.
      by apply caseDedicatedNumaExclusive_lookup_error. }
  rewrite AssembleProvision_outcome, Hregions.
  rewrite (rangeRegionMap_stops _ _ _ _ _ _ _ Hpre); rewrite Hstep; done.
Qed.

(** ** The pod-count check *)

(** C6, as amended.  When the loop reaches a region dedicated to a NUMA node
    whose [GetProvision] succeeds, whose set of binding NUMA ids is not
    empty and whose pod set does not hold exactly one pod, then
    [AssembleProvision] returns the zero-value result, [boundUpper = false]
    and the error of the pod-count check. *)
Theorem AssembleProvision_pod_count
    (regulatePoolSizes : gmap string Z → Z → bool → gmap string Z * bool)
    (pa : ProvisionAssemblerCommon) (now : Time)
    (pre : list QoSRegion) (r : QoSRegion) (post : list QoSRegion) (l : Locals) :
  regionMap pa = pre ++ r :: post →
  (rangeRegionMap pa (EnableReclaim (conf pa)) pre (initLocals pa now)).1 = Continue l →
  Type_ r = QoSRegionTypeDedicatedNumaExclusive →
  (GetProvision r).2 = None →
  GetBindingNumas r ≠ ∅ →
  Pods (GetPods r) ≠ 1 →
  (AssembleProvision regulatePoolSizes pa now).1 =
  Returned zeroResult false (Some (MoreThanOnePodError (GetPods r))).
Proof.
  intros Hregions Hpre Htype Hprov Hnuma Hpods.
  rewrite AssembleProvision_outcome, Hregions.
  assert ((processRegion pa (EnableReclaim (conf pa)) r l).1 =
          Return (MoreThanOnePodError (GetPods r))) as Hstep.
  { rewrite processRegion_dedicated by done.
    by apply caseDedicatedNumaExclusive_pod_count. }
  rewrite (rangeRegionMap_stops _ _ _ _ _ _ _ Hpre); rewrite Hstep; done.
Qed.

(** ** The binding NUMA id of a dedicated region *)

(** C9.  The body of the loop takes element 0 of the binding NUMA ids of a
    dedicated region before it checks the pods and before it looks up the
    reclaim policy: whatever the pod set and the lookup are, the body panics
    exactly when the set of binding NUMA ids is empty, and a call that
    reaches such a region panics; it does not return, with or without an
    error. *)
Theorem AssembleProvision_binding_numa
    (regulatePoolSizes : gmap string Z → Z → bool → gmap string Z * bool)
    (pa : ProvisionAssemblerCommon) (now : Time)
    (pre : list QoSRegion) (r : QoSRegion) (post : list QoSRegion) (l : Locals) :
  regionMap pa = pre ++ r :: post →
  (rangeRegionMap pa (EnableReclaim (conf pa)) pre (initLocals pa now)).1 = Continue l →
  Type_ r = QoSRegionTypeDedicatedNumaExclusive →
  (GetProvision r).2 = None →
  ((processRegion pa (EnableReclaim (conf pa)) r l).1 = Panic ↔ GetBindingNumas r = ∅)
  ∧ (GetBindingNumas r = ∅ →
     (AssembleProvision regulatePoolSizes pa now).1 = Panicked
     ∧ ∀ result boundUpper err,
         (AssembleProvision regulatePoolSizes pa now).1 ≠ Returned result boundUpper err).
Proof.
  intros Hregions Hpre Htype Hprov.
  assert ((processRegion pa (EnableReclaim (conf pa)) r l).1 = Panic
          ↔ GetBindingNumas r = ∅) as Hstep.
  { rewrite processRegion_dedicated by done. apply caseDedicatedNumaExclusive_panic. }
  split; [done|]. intros Hnuma. apply Hstep in Hnuma.
  assert ((AssembleProvision regulatePoolSizes pa now).1 = Panicked) as ->; [|done].
  rewrite AssembleProvision_outcome, Hregions.
  rewrite (rangeRegionMap_stops _ _ _ _ _ _ _ Hpre); rewrite Hnuma; done.
Qed.

(** ** What the call leaves of the caller's objects *)


(** ** Pool entries *)

Lemma poolEntry_SetPoolEntry_eq poolName numaID poolSize ic :
  poolEntry (SetPoolEntry poolName numaID poolSize ic) poolName numaID = Some poolSize.
Proof.
  unfold poolEntry, SetPoolEntry. cbn [PoolEntries].
  rewrite lookup_insert_eq. cbn. apply lookup_insert_eq.
Qed.

Lemma poolEntry_SetPoolEntry_ne poolName numaID poolSize ic poolName' numaID' :
  poolName ≠ poolName' ∨ numaID ≠ numaID' →
  poolEntry (SetPoolEntry poolName numaID poolSize ic) poolName' numaID' =
  poolEntry ic poolName' numaID'.
Proof.
  unfold poolEntry, SetPoolEntry. cbn [PoolEntries]. intros Hne.
  destruct (decide (poolName = poolName')) as [<-|Hpool].
  - destruct Hne as [?|Hnuma]; [done|].
    rewrite lookup_insert_eq. cbn. rewrite lookup_insert_ne by done.
    by destruct (PoolEntries ic !! poolName).
  - by rewrite lookup_insert_ne.
Qed.

Lemma poolEntry_setRegulatedEntries sizes ic poolName numaID :
  poolEntry (setRegulatedEntries sizes ic) poolName numaID =
  match sizes !! poolName with
  | Some poolSize =>
      if decide (numaID = FakedNUMAID) then Some poolSize else poolEntry ic poolName numaID
  | None => poolEntry ic poolName numaID
  end.
Proof.
  unfold setRegulatedEntries.
  apply (map_fold_weak_ind
           (λ res (m : gmap string Z),
              poolEntry res poolName numaID =
              match m !! poolName with
              | Some poolSize =>
                  if decide (numaID = FakedNUMAID) then Some poolSize
                  else poolEntry ic poolName numaID
              | None => poolEntry ic poolName numaID
              end)).
  - done.
  - intros name size m res Hfresh IH.
    destruct (decide (name = poolName)) as [->|Hname].
    + rewrite lookup_insert_eq. case_decide as Hnuma.
      * subst numaID. apply poolEntry_SetPoolEntry_eq.
      * rewrite poolEntry_SetPoolEntry_ne by auto. by rewrite IH, Hfresh.
    + rewrite lookup_insert_ne by done. by rewrite poolEntry_SetPoolEntry_ne by auto.
Qed.

(** ** Sums over a set of NUMA ids *)

Lemma getNumasReservedForReclaim_singleton pa (numa : Z) :
  getNumasReservedForReclaim pa {[ numa ]} =
  GoInt.add 0 (default 0 (reservedForReclaim pa !! numa)).
Proof.
  unfold getNumasReservedForReclaim. rewrite ToSliceInt_singleton. cbn.
  by destruct (reservedForReclaim pa !! numa).
Qed.

Lemma getNumasAvailableResource_singleton (available : gmap Z Z) (numa : Z) :
  getNumasAvailableResource available {[ numa ]} =
  GoInt.add 0 (default 0 (available !! numa)).
Proof. unfold getNumasAvailableResource. by rewrite ToSliceInt_singleton. Qed.

(** ** The node-wide reclaim pool entry *)

(** The size of the node-wide reclaim pool, in exact sums. *)
Lemma reclaimPoolSizeOfNonBindingNumas_total pa nodeEnableReclaim regulated :
  reclaimPoolSizeOfNonBindingNumas pa nodeEnableReclaim regulated =
  GoInt.wrap
    (if nodeEnableReclaim
     then sumOverNumas (numaAvailable pa) (nonBindingNumas pa) - sumOfSizes regulated
          + sumOverNumas (reservedForReclaim pa) (nonBindingNumas pa)
     else sumOverNumas (reservedForReclaim pa) (nonBindingNumas pa)).
Proof.
  unfold reclaimPoolSizeOfNonBindingNumas, shareAndIsolatedPoolAvailable.
  rewrite getNumasReservedForReclaim_total, getNumasAvailableResource_total,
    SumUpMapValues_total.
  destruct nodeEnableReclaim; [|done].
  unfold GoInt.add, GoInt.sub.
  by rewrite GoIntFacts.wrap_sub_r, GoIntFacts.wrap_sub_l, GoIntFacts.wrap_add_r,
    GoIntFacts.wrap_add_l.
Qed.

(** C3.  A call that returns without an error has written, as its last
    entry, the node-wide reclaim pool entry; the returned result holds it
    under the pool [PoolNameReclaim] and the NUMA id [FakedNUMAID], and its
    value is the available resource of the non-binding NUMA ids minus the sum
    of the regulated pool sizes plus the reservation of the non-binding NUMA
    ids when node reclaim is enabled, and that reservation when it is not:
    as the code computes it, and, which is the same, as the exact sums over
    [nonBindingNumas] and over the regulated pools, brought into the range of
    a Go [int]. *)
Theorem AssembleProvision_reclaim_entry
    (regulatePoolSizes : gmap string Z → Z → bool → gmap string Z * bool)
    (pa : ProvisionAssemblerCommon) (now : Time)
    (result : InternalCPUCalculationResult) (boundUpper : bool) :
  (AssembleProvision regulatePoolSizes pa now).1 = Returned result boundUpper None →
  ∃ l regulated,
    (rangeRegionMap pa (EnableReclaim (conf pa)) (regionMap pa) (initLocals pa now)).1
      = Continue l
    ∧ regulated =
        (regulatePoolSizes (shareAndIsolatePoolSizes pa l)
           (shareAndIsolatedPoolAvailable pa) (EnableReclaim (conf pa))).1
    ∧ poolEntry result PoolNameReclaim FakedNUMAID =
        Some (if EnableReclaim (conf pa)
              then GoInt.add
                     (GoInt.sub
                        (getNumasAvailableResource (numaAvailable pa) (nonBindingNumas pa))
                        (SumUpMapValues regulated))
                     (getNumasReservedForReclaim pa (nonBindingNumas pa))
              else getNumasReservedForReclaim pa (nonBindingNumas pa))
    ∧ poolEntry result PoolNameReclaim FakedNUMAID =
        Some (GoInt.wrap
                (if EnableReclaim (conf pa)
                 then sumOverNumas (numaAvailable pa) (nonBindingNumas pa)
                      - sumOfSizes regulated
                      + sumOverNumas (reservedForReclaim pa) (nonBindingNumas pa)
                 else sumOverNumas (reservedForReclaim pa) (nonBindingNumas pa))).
Proof.
  rewrite AssembleProvision_outcome.
  destruct (rangeRegionMap pa (EnableReclaim (conf pa)) (regionMap pa) (initLocals pa now)).1
    as [l| |]; [|done..].
  unfold finish.
  destruct (regulatePoolSizes (shareAndIsolatePoolSizes pa l)
              (shareAndIsolatedPoolAvailable pa) (EnableReclaim (conf pa)))
    as [regulated bound] eqn:Hregulated.
  intros [= <- <-]. exists l, regulated. split; [done|].
  split; [by rewrite Hregulated|].
  rewrite poolEntry_SetPoolEntry_eq. split; [done|].
  by rewrite reclaimPoolSizeOfNonBindingNumas_total.
Qed.

(** ** The reclaim pool entry of a dedicated region *)

(** The body of the loop on a dedicated region with one pod, a non-empty set
    of binding NUMA ids and a policy lookup that succeeds. *)
Lemma processRegion_dedicated_one_pod pa nodeEnableReclaim r l regionNuma enableReclaim :
  Type_ r = QoSRegionTypeDedicatedNumaExclusive →
  (GetProvision r).2 = None →
  head (ToSliceInt (GetBindingNumas r)) = Some regionNuma →
  Pods (GetPods r) = 1 →
  PodEnableReclaim (metaServer pa) (PopAny (GetPods r)).1.1.1 nodeEnableReclaim
    = (enableReclaim, None) →
  (processRegion pa nodeEnableReclaim r l).1 =
  let reserved := getNumasReservedForReclaim pa (GetBindingNumas r) in
  if enableReclaim then
    Continue
      (setEntry PoolNameReclaim regionNuma
         (GoInt.add
            (GoInt.sub
               (getNumasAvailableResource (numaAvailable pa) (GetBindingNumas r))
               (knobInt (GetProvision r).1 ControlKnobNonReclaimedCPUSize))
            reserved)
         l)
  else if decide (reserved > 0)
       then Continue (setEntry PoolNameReclaim regionNuma reserved l)
       else Continue l.
Proof.
  intros Htype Hprov Hnuma Hpods Hlookup.
  rewrite processRegion_dedicated by done. unfold caseDedicatedNumaExclusive.
  destruct (ToSliceInt (GetBindingNumas r)) as [|regionNuma' ?]; [done|].
  injection Hnuma as ->. case_decide; [done|].
  destruct (PopAny (GetPods r)) as [[[podUID ?] ?] podSet]. cbn [fst] in Hlookup.
  rewrite Hlookup. destruct enableReclaim; cbn; [done|]. by case_decide.
Qed.

(** A body writes no entry but the reclaim entry of the first binding NUMA id
    of a dedicated region. *)
Lemma processRegion_keeps_entry pa nodeEnableReclaim r l l' numaID :
  (processRegion pa nodeEnableReclaim r l).1 = Continue l' →
  (Type_ r = QoSRegionTypeDedicatedNumaExclusive →
   head (ToSliceInt (GetBindingNumas r)) ≠ Some numaID) →
  poolEntry (calculationResult l') PoolNameReclaim numaID =
  poolEntry (calculationResult l) PoolNameReclaim numaID.
Proof.
  unfold processRegion. destruct (GetProvision r) as [controlKnob [err|]]; [done|].
  intros Hstep Hnuma. destruct (Type_ r); cbn [fst] in Hstep.
  - by injection Hstep as <-.
  - by injection Hstep as <-.
  - specialize (Hnuma eq_refl). revert Hstep. unfold caseDedicatedNumaExclusive.
    destruct (ToSliceInt (GetBindingNumas r)) as [|regionNuma ?]; [done|].
    assert (regionNuma ≠ numaID) by (by intros ->).
    case_decide; [done|].
    destruct (PopAny (GetPods r)) as [[[podUID ?] ?] podSet].
    destruct (PodEnableReclaim (metaServer pa) podUID nodeEnableReclaim)
      as [enable [err|]]; [done|].
    destruct enable; cbn; [|case_decide]; intros [= <-]; try done;
      cbn; by rewrite poolEntry_SetPoolEntry_ne by auto.
  - by injection Hstep as <-.
Qed.

Lemma rangeRegionMap_keeps_entry pa nodeEnableReclaim regions l l' numaID :
  (rangeRegionMap pa nodeEnableReclaim regions l).1 = Continue l' →
  Forall (λ r, Type_ r = QoSRegionTypeDedicatedNumaExclusive →
               head (ToSliceInt (GetBindingNumas r)) ≠ Some numaID) regions →
  poolEntry (calculationResult l') PoolNameReclaim numaID =
  poolEntry (calculationResult l) PoolNameReclaim numaID.
Proof.
  intros Hloop Hothers. revert l Hloop.
  induction Hothers as [|r regions Hr Hothers IH]; intros l.
  - by intros [= <-].
  - rewrite rangeRegionMap_cons.
    destruct (processRegion pa nodeEnableReclaim r l).1 as [l''| |] eqn:Hstep; [|done..].
    intros Hloop. rewrite (IH _ Hloop).
    by apply (processRegion_keeps_entry pa nodeEnableReclaim r).
Qed.

(** The statements after the loop write node-wide entries only. *)
Lemma finish_keeps_entry regulatePoolSizes pa nodeEnableReclaim l poolName numaID :
  numaID ≠ FakedNUMAID →
  poolEntry (finish regulatePoolSizes pa nodeEnableReclaim l).1 poolName numaID =
  poolEntry (calculationResult l) poolName numaID.
Proof.
  intros Hnuma. unfold finish.
  destruct (regulatePoolSizes (shareAndIsolatePoolSizes pa l)
              (shareAndIsolatedPoolAvailable pa) nodeEnableReclaim) as [regulated bound].
  cbn [fst]. rewrite poolEntry_SetPoolEntry_ne by auto.
  rewrite poolEntry_setRegulatedEntries.
  destruct (regulated !! poolName); [by rewrite decide_False|done].
Qed.

(** A loop that comes to its end has come to the end of every body. *)
Lemma rangeRegionMap_split pa nodeEnableReclaim pre r post l l' :
  (rangeRegionMap pa nodeEnableReclaim (pre ++ r :: post) l).1 = Continue l' →
  ∃ l1 l2,
    (rangeRegionMap pa nodeEnableReclaim pre l).1 = Continue l1
    ∧ (processRegion pa nodeEnableReclaim r l1).1 = Continue l2
    ∧ (rangeRegionMap pa nodeEnableReclaim post l2).1 = Continue l'.
Proof.
  revert l. induction pre as [|r' pre IH]; intros l.
  - cbn [app]. rewrite rangeRegionMap_cons.
    destruct (processRegion pa nodeEnableReclaim r l).1 as [l2| |] eqn:Hstep; [|done..].
    intros Hloop. by exists l, l2.
  - rewrite <- app_comm_cons, !rangeRegionMap_cons.
    destruct (processRegion pa nodeEnableReclaim r' l).1 as [l''| |]; [|done..].
    apply IH.
Qed.

(** The entry of the reclaim pool for [numaID] in the result of a call that
    returns without an error is the entry the body of [r] leaves, if no
    region visited after [r] is a dedicated region with [numaID] as its first
    binding NUMA id. *)
Lemma AssembleProvision_keeps_entry regulatePoolSizes pa now pre r post l
    result boundUpper numaID :
  regionMap pa = pre ++ r :: post →
  (rangeRegionMap pa (EnableReclaim (conf pa)) pre (initLocals pa now)).1 = Continue l →
  (AssembleProvision regulatePoolSizes pa now).1 = Returned result boundUpper None →
  numaID ≠ FakedNUMAID →
  Forall (λ r, Type_ r = QoSRegionTypeDedicatedNumaExclusive →
               head (ToSliceInt (GetBindingNumas r)) ≠ Some numaID) post →
  ∃ l',
    (processRegion pa (EnableReclaim (conf pa)) r l).1 = Continue l'
    ∧ poolEntry result PoolNameReclaim numaID =
      poolEntry (calculationResult l') PoolNameReclaim numaID.
Proof.
  intros Hregions Hpre. rewrite AssembleProvision_outcome, Hregions.
  destruct (rangeRegionMap pa _ (pre ++ r :: post) _).1 as [l''| |] eqn:Hloop; [|done..].
  apply rangeRegionMap_split in Hloop as (l1 & l2 & Hpre' & Hstep & Hpost).
  rewrite Hpre in Hpre'. injection Hpre' as <-.
  intros Hresult Hnuma Hothers. exists l2. split; [done|].
  pose proof (finish_keeps_entry regulatePoolSizes pa (EnableReclaim (conf pa)) l''
                PoolNameReclaim numaID Hnuma) as Hfinish.
  destruct (finish regulatePoolSizes pa (EnableReclaim (conf pa)) l'').
  injection Hresult as <- <-. cbn [fst] in Hfinish. rewrite Hfinish.
  by apply (rangeRegionMap_keeps_entry pa (EnableReclaim (conf pa)) post).
Qed.

Lemma initLocals_no_reclaim_entry pa now numaID :
  poolEntry (calculationResult (initLocals pa now)) PoolNameReclaim numaID = None.
Proof.
  unfold initLocals. destruct (GetPoolSize (metaReader pa) PoolNameReserve).
  cbn [calculationResult]. by rewrite poolEntry_SetPoolEntry_ne by (left; done).
Qed.

(** C4.  On a dedicated region that binds the NUMA id [numa], holds one pod
    and whose pod has reclaim enabled, the body of the loop calls
    [SetPoolEntry] for the reclaim pool and [numa] with
    [available - NonReclaimedCPUSize + reservation], where [available] and
    [reservation] are the values of [numaAvailable] and [reservedForReclaim]
    at [numa], zero for an id that is not in the map.  No test guards the
    call and nothing bounds the value from below: the entry is written
    whatever its sign.  The result of a call that returns without an error
    holds the entry, if [numa] is not the node-wide id and no region visited
    later is dedicated to [numa]. *)
Theorem AssembleProvision_reclaim_enabled
    (regulatePoolSizes : gmap string Z → Z → bool → gmap string Z * bool)
    (pa : ProvisionAssemblerCommon) (now : Time)
    (pre : list QoSRegion) (r : QoSRegion) (post : list QoSRegion)
    (l : Locals) (numa : Z) :
  regionMap pa = pre ++ r :: post →
  (rangeRegionMap pa (EnableReclaim (conf pa)) pre (initLocals pa now)).1 = Continue l →
  Type_ r = QoSRegionTypeDedicatedNumaExclusive →
  (GetProvision r).2 = None →
  GetBindingNumas r = {[ numa ]} →
  Pods (GetPods r) = 1 →
  PodEnableReclaim (metaServer pa) (PopAny (GetPods r)).1.1.1 (EnableReclaim (conf pa))
    = (true, None) →
  let reclaimed :=
    GoInt.add
      (GoInt.sub (default 0 (numaAvailable pa !! numa))
         (knobInt (GetProvision r).1 ControlKnobNonReclaimedCPUSize))
      (default 0 (reservedForReclaim pa !! numa)) in
  (processRegion pa (EnableReclaim (conf pa)) r l).1 =
    Continue (setEntry PoolNameReclaim numa reclaimed l)
  ∧ poolEntry (calculationResult (setEntry PoolNameReclaim numa reclaimed l))
      PoolNameReclaim numa = Some reclaimed
  ∧ ∀ result boundUpper,
      (AssembleProvision regulatePoolSizes pa now).1 = Returned result boundUpper None →
      numa ≠ FakedNUMAID →
      Forall (λ r', Type_ r' = QoSRegionTypeDedicatedNumaExclusive →
                    head (ToSliceInt (GetBindingNumas r')) ≠ Some numa) post →
      poolEntry result PoolNameReclaim numa = Some reclaimed.
Proof.
  intros Hregions Hpre Htype Hprov Hnuma Hpods Hlookup reclaimed.
  assert ((processRegion pa (EnableReclaim (conf pa)) r l).1 =
          Continue (setEntry PoolNameReclaim numa reclaimed l)) as Hstep.
  { rewrite (processRegion_dedicated_one_pod pa _ r l numa true)
      by (rewrite ?Hnuma, ?ToSliceInt_singleton; done).
    cbn zeta. rewrite Hnuma.
    rewrite getNumasReservedForReclaim_singleton, getNumasAvailableResource_singleton.
    do 2 f_equal. unfold reclaimed, GoInt.add, GoInt.sub.
    rewrite !Z.add_0_l, GoIntFacts.wrap_sub_l, GoIntFacts.wrap_add_r,
      !GoIntFacts.wrap_add_l.
    done. }
  split; [done|]. split; [apply poolEntry_SetPoolEntry_eq|].
  intros result boundUpper Hresult Hsentinel Hothers.
  destruct (AssembleProvision_keeps_entry regulatePoolSizes pa now pre r post l
              result boundUpper numa Hregions Hpre Hresult Hsentinel Hothers)
    as (l' & Hstep' & ->).
  rewrite Hstep in Hstep'. injection Hstep' as <-. apply poolEntry_SetPoolEntry_eq.
Qed.

(** C5.  On a dedicated region that binds the NUMA id [numa], holds one pod
    and whose pod has reclaim disabled, the body of the loop calls
    [SetPoolEntry] for the reclaim pool and [numa] with the reservation of
    the region's NUMA id when that reservation is above zero, and writes
    nothing when it is zero or below.  In the result of a call that returns
    without an error, for a [numa] that is not the node-wide id and to which
    no other region is dedicated, the reclaim pool has the reservation as its
    entry for [numa] in the first case and no entry for [numa] in the
    second. *)
Theorem AssembleProvision_reclaim_disabled
    (regulatePoolSizes : gmap string Z → Z → bool → gmap string Z * bool)
    (pa : ProvisionAssemblerCommon) (now : Time)
    (pre : list QoSRegion) (r : QoSRegion) (post : list QoSRegion)
    (l : Locals) (numa : Z) :
  regionMap pa = pre ++ r :: post →
  (rangeRegionMap pa (EnableReclaim (conf pa)) pre (initLocals pa now)).1 = Continue l →
  Type_ r = QoSRegionTypeDedicatedNumaExclusive →
  (GetProvision r).2 = None →
  GetBindingNumas r = {[ numa ]} →
  Pods (GetPods r) = 1 →
  PodEnableReclaim (metaServer pa) (PopAny (GetPods r)).1.1.1 (EnableReclaim (conf pa))
    = (false, None) →
  let reservation := getNumasReservedForReclaim pa (GetBindingNumas r) in
  (processRegion pa (EnableReclaim (conf pa)) r l).1 =
    (if decide (0 < reservation)
     then Continue (setEntry PoolNameReclaim numa reservation l)
     else Continue l)
  ∧ reservation = GoInt.wrap (default 0 (reservedForReclaim pa !! numa))
  ∧ ∀ result boundUpper,
      (AssembleProvision regulatePoolSizes pa now).1 = Returned result boundUpper None →
      numa ≠ FakedNUMAID →
      Forall (λ r', Type_ r' = QoSRegionTypeDedicatedNumaExclusive →
                    head (ToSliceInt (GetBindingNumas r')) ≠ Some numa) (pre ++ post) →
      poolEntry result PoolNameReclaim numa =
      if decide (0 < reservation) then Some reservation else None.
Proof.
  intros Hregions Hpre Htype Hprov Hnuma Hpods Hlookup reservation.
  assert ((processRegion pa (EnableReclaim (conf pa)) r l).1 =
          (if decide (0 < reservation)
           then Continue (setEntry PoolNameReclaim numa reservation l)
           else Continue l)) as Hstep.
  { rewrite (processRegion_dedicated_one_pod pa _ r l numa false)
      by (rewrite ?Hnuma, ?ToSliceInt_singleton; done).
    cbn zeta. fold reservation.
    destruct (decide (0 < reservation));
      [by rewrite decide_True by lia | by rewrite decide_False by lia]. }
  split; [done|]. split.
  { unfold reservation. by rewrite Hnuma, getNumasReservedForReclaim_singleton. }
  intros result boundUpper Hresult Hsentinel [Hbefore Hafter]%Forall_app.
  destruct (AssembleProvision_keeps_entry regulatePoolSizes pa now pre r post l
              result boundUpper numa Hregions Hpre Hresult Hsentinel Hafter)
    as (l' & Hstep' & ->).
  rewrite Hstep in Hstep'. destruct (decide (0 < reservation)); injection Hstep' as <-.
  - apply poolEntry_SetPoolEntry_eq.
  - rewrite (rangeRegionMap_keeps_entry _ _ _ _ _ _ Hpre Hbefore).
    apply initLocals_no_reclaim_entry.
Qed.

(** ** The reserve pool entry *)




(** The body of the loop writes entries of the reclaim pool only. *)
Lemma processRegion_poolEntry pa nodeEnableReclaim r l l' poolName numaID :
  (processRegion pa nodeEnableReclaim r l).1 = Continue l' →
  poolName ≠ PoolNameReclaim →
  poolEntry (calculationResult l') poolName numaID =
  poolEntry (calculationResult l) poolName numaID.
Proof.
  unfold processRegion. destruct (GetProvision r) as [controlKnob [err|]]; [done|].
  intros Hstep Hpool. destruct (Type_ r); cbn [fst] in Hstep.
  - by injection Hstep as <-.
  - by injection Hstep as <-.
  - revert Hstep. unfold caseDedicatedNumaExclusive.
    destruct (ToSliceInt (GetBindingNumas r)) as [|regionNuma ?]; [done|].
    case_decide; [done|].
    destruct (PopAny (GetPods r)) as [[[podUID ?] ?] podSet].
    destruct (PodEnableReclaim (metaServer pa) podUID nodeEnableReclaim)
      as [enable [err|]]; [done|].
    destruct enable; cbn; [|case_decide]; intros [= <-]; try done;
      cbn; by rewrite poolEntry_SetPoolEntry_ne by auto.
  - by injection Hstep as <-.
Qed.

Lemma rangeRegionMap_poolEntry pa nodeEnableReclaim regions l l' poolName numaID :
  (rangeRegionMap pa nodeEnableReclaim regions l).1 = Continue l' →
  poolName ≠ PoolNameReclaim →
  poolEntry (calculationResult l') poolName numaID =
  poolEntry (calculationResult l) poolName numaID.
Proof.
  intros Hloop Hpool. revert l Hloop.
  induction regions as [|r regions IH]; intros l.
  - by intros [= <-].
  - rewrite rangeRegionMap_cons.
    destruct (processRegion pa nodeEnableReclaim r l).1 as [l''| |] eqn:Hstep; [|done..].
    intros Hloop. rewrite (IH _ Hloop).
    by apply (processRegion_poolEntry pa nodeEnableReclaim r).
Qed.

Lemma initLocals_reserve_entry pa now :
  calculationResult (initLocals pa now) =
  SetPoolEntry PoolNameReserve FakedNUMAID (GetPoolSize (metaReader pa) PoolNameReserve).1
    {| PoolEntries := ∅; TimeStamp := now |}.
Proof.
  unfold initLocals. by destruct (GetPoolSize (metaReader pa) PoolNameReserve).
Qed.



(** ** Sums of pool sizes *)

Lemma SumUpMapValues_empty : SumUpMapValues ∅ = 0.
Proof. unfold SumUpMapValues. by rewrite map_fold_empty. Qed.

Lemma SumUpMapValues_insert (m : gmap string Z) (name : string) (size : Z) :
  m !! name = None →
  SumUpMapValues (<[name := size]> m) = GoInt.add (SumUpMapValues m) size.
Proof.
  intros Hfresh. unfold SumUpMapValues. rewrite map_fold_insert_L; [done| |done].
  intros. apply GoIntFacts.add_swap_r.
Qed.



(** ** The demand the loop records *)

Lemma caseDedicatedNumaExclusive_sameDemand pa nodeEnableReclaim r controlKnob l l' :
  (caseDedicatedNumaExclusive pa nodeEnableReclaim r controlKnob l).1 = Continue l' →
  sameDemand l l'.
Proof.
  unfold caseDedicatedNumaExclusive.
  destruct (ToSliceInt (GetBindingNumas r)) as [|regionNuma ?]; [done|].
  case_decide; [done|].
  destruct (PopAny (GetPods r)) as [[[podUID ?] ?] podSet].
  destruct (PodEnableReclaim (metaServer pa) podUID nodeEnableReclaim)
    as [enable [err|]]; [done|].
  destruct enable; cbn; [|case_decide]; intros [= <-]; by repeat split.
Qed.

Lemma processRegion_demandInv pa nodeEnableReclaim r l l' :
  (processRegion pa nodeEnableReclaim r l).1 = Continue l' →
  demandInv l →
  (∀ name, demandKey r = Some name → name ∉ usedKeys l) →
  demandInv l'
  ∧ usedKeys l' = usedKeys l ∪ (if demandKey r is Some name then {[ name ]} else ∅).
Proof.
  unfold processRegion, demandKey, usedKeys.
  destruct (GetProvision r) as [controlKnob [err|]]; [done|].
  intros Hstep (Hshares & Huppers & Hdisjoint) Hfresh.
  destruct (Type_ r); cbn [fst] in Hstep.
  - injection Hstep as <-. specialize (Hfresh _ eq_refl).
    apply not_elem_of_union in Hfresh as [Hshare%not_elem_of_dom Hupper%not_elem_of_dom].
    unfold demandInv, caseShare; cbn.
    split; [|rewrite dom_insert_L; apply set_eq; intros x;
              rewrite !elem_of_union, elem_of_singleton; tauto].
    rewrite lookup_insert_eq, SumUpMapValues_insert, Hshares by done. cbn.
    split_and!; try done. by apply map_disjoint_insert_l.
  - injection Hstep as <-. specialize (Hfresh _ eq_refl).
    apply not_elem_of_union in Hfresh as [Hshare%not_elem_of_dom Hupper%not_elem_of_dom].
    unfold demandInv, caseIsolation; cbn.
    split; [|rewrite dom_insert_L; apply set_eq; intros x;
              rewrite !elem_of_union, elem_of_singleton; tauto].
    rewrite lookup_insert_eq, SumUpMapValues_insert, Huppers by done. cbn.
    split_and!; try done. by apply map_disjoint_insert_r.
  - destruct (caseDedicatedNumaExclusive pa nodeEnableReclaim r controlKnob l)
      as [flow podSet] eqn:Hcase. cbn in Hstep. subst flow.
    pose proof (caseDedicatedNumaExclusive_sameDemand pa nodeEnableReclaim r controlKnob l l')
      as Hsame. rewrite Hcase in Hsame.
    destruct (Hsame eq_refl) as (H1 & H2 & H3 & H4 & H5).
    unfold demandInv. rewrite <- H1, <- H2, <- H3, <- H4.
    split; [done|by rewrite (right_id_L ∅ (∪))].
  - injection Hstep as <-. split; [done|by rewrite (right_id_L ∅ (∪))].
Qed.

Lemma rangeRegionMap_demandInv pa nodeEnableReclaim regions l l' :
  (rangeRegionMap pa nodeEnableReclaim regions l).1 = Continue l' →
  demandInv l →
  NoDup (demandKeys regions) →
  (∀ name, name ∈ demandKeys regions → name ∉ usedKeys l) →
  demandInv l'.
Proof.
  revert l. induction regions as [|r regions IH]; intros l.
  - by intros [= <-].
  - rewrite rangeRegionMap_cons.
    destruct (processRegion pa nodeEnableReclaim r l).1 as [l''| |] eqn:Hstep; [|done..].
    intros Hloop Hinv Hnodup Hfresh.
    unfold demandKeys in Hnodup, Hfresh. cbn [omap list_omap] in Hnodup, Hfresh.
    destruct (processRegion_demandInv pa nodeEnableReclaim r l l'' Hstep Hinv)
      as [Hinv' Hused].
    { intros name Hname. apply Hfresh. rewrite Hname. left. }
    apply (IH l'' Hloop Hinv').
    + destruct (demandKey r); [by apply NoDup_cons in Hnodup as []|done].
    + intros name Hname. rewrite Hused.
      destruct (demandKey r) as [name'|].
      * apply NoDup_cons in Hnodup as [Hnotin Hnodup].
        apply not_elem_of_union. split.
        -- apply Hfresh. by right.
        -- apply not_elem_of_singleton. by intros ->.
      * rewrite (right_id_L ∅ (∪)). by apply Hfresh.
Qed.

Lemma initLocals_demandInv pa now :
  demandInv (initLocals pa now) ∧ usedKeys (initLocals pa now) = ∅.
Proof.
  unfold initLocals. destruct (GetPoolSize (metaReader pa) PoolNameReserve).
  unfold demandInv, usedKeys; cbn. rewrite SumUpMapValues_empty.
  split; [split_and!; try done; apply map_disjoint_empty_l | set_solver].
Qed.


(** ** The fallback to the lower sizes *)


(** ** The sum bound of the regulator *)


(** ** The example reduction rule *)

Lemma sumOfSizes_insert (sizes : gmap string Z) (name : string) (size : Z) :
  sizes !! name = None →
  sumOfSizes (<[name := size]> sizes) = size + sumOfSizes sizes.
Proof.
  intros Hfresh. unfold sumOfSizes.
  by rewrite (total_Permutation _ _
                (fmap_Permutation snd _ _ (map_to_list_insert sizes name size Hfresh))).
Qed.

Lemma sumOfSizes_replace (sizes : gmap string Z) (name : string) (old new : Z) :
  sizes !! name = Some old →
  sumOfSizes (<[name := new]> sizes) = sumOfSizes sizes - old + new.
Proof.
  intros Hold. rewrite <- (insert_delete_id sizes name old Hold) at 2.
  rewrite <- insert_delete_eq.
  rewrite !sumOfSizes_insert by apply lookup_delete_eq. lia.
Qed.

Lemma sumOfSizes_fmap (f : Z → Z) (sizes : gmap string Z) :
  sumOfSizes (f <$> sizes) = total (f <$> (map_to_list sizes).*2).
Proof.
  unfold sumOfSizes. rewrite map_to_list_fmap. f_equal.
  rewrite <- !list_fmap_compose. by apply list_fmap_ext; intros ? [].
Qed.

(** Scaled and floored sizes are not below zero, and they add up to at most
    [available] when the sizes add up to [demandTotal]. *)
Lemma scaled_total (available demandTotal : Z) (sizes : list Z) :
  0 ≤ available → 0 < demandTotal → Forall (λ size, 0 ≤ size) sizes →
  0 ≤ total ((λ size, Z.max 0 (size * available / demandTotal)) <$> sizes)
  ∧ total ((λ size, Z.max 0 (size * available / demandTotal)) <$> sizes) * demandTotal
    ≤ available * total sizes.
Proof.
  intros Havailable Htotal. induction 1 as [|size sizes Hsize _ [IH0 IH]].
  - cbn. lia.
  - change (total (?f <$> size :: sizes)) with (f size + total (f <$> sizes)).
    change (total (size :: sizes)) with (size + total sizes). cbn beta.
    pose proof (Z.mul_div_le (size * available) demandTotal Htotal).
    assert (0 ≤ size * available / demandTotal) by (apply Z.div_pos; nia).
    nia.
Qed.

Lemma largestPool_lookup (sizes : gmap string Z) (name : string) (size : Z) :
  largestPool sizes = Some (name, size) → sizes !! name = Some size.
Proof.
  unfold largestPool. revert name size.
  apply (map_fold_weak_ind
           (λ best (m : gmap string Z),
              ∀ name size, best = Some (name, size) → m !! name = Some size)).
  - done.
  - intros name' size' m best Hfresh IH name size.
    destruct best as [[bestName bestSize]|].
    + case_decide.
      * intros [= <- <-]. apply lookup_insert_eq.
      * intros Hbest. specialize (IH _ _ Hbest).
        rewrite lookup_insert_ne; [done|]. intros <-. by rewrite Hfresh in IH.
    + intros [= <- <-]. apply lookup_insert_eq.
Qed.

(** On a demand of sizes that are not below zero and whose total is a Go
    [int], the example rule keeps the total within an [available] that is not
    below zero. *)
Lemma scaleDown_fits (demand : gmap string Z) (available : Z) (reclaimEnabled : bool) :
  map_Forall (λ _ size, 0 ≤ size) demand →
  GoInt.in_range (sumOfSizes demand) →
  0 ≤ available < sumOfSizes demand →
  SumUpMapValues (scaleDown demand available reclaimEnabled) ≤ available.
Proof.
  intros Hsizes Hrange [Havailable Hexceeds].
  assert (SumUpMapValues demand = sumOfSizes demand) as Htotal.
  { rewrite SumUpMapValues_total. by apply GoIntFacts.wrap_id. }
  unfold scaleDown. rewrite Htotal.
  set (scaled := (λ size, Z.max 0 (size * available / sumOfSizes demand)) <$> demand).
  assert (0 ≤ sumOfSizes scaled ≤ available) as Hscaled.
  { unfold scaled. rewrite sumOfSizes_fmap.
    destruct (scaled_total available (sumOfSizes demand) (map_to_list demand).*2)
      as [H0 Hle]; [lia..| |].
    - apply Forall_fmap, Forall_forall. intros [name size] Hin.
      apply elem_of_map_to_list in Hin. by apply (Hsizes name).
    - unfold sumOfSizes in *. nia. }
  assert (GoInt.in_range available) as Havailable_range.
  { unfold GoInt.in_range, GoInt.min_int, GoInt.max_int in *. lia. }
  assert (SumUpMapValues scaled = sumOfSizes scaled) as Hsum.
  { rewrite SumUpMapValues_total. apply GoIntFacts.wrap_id.
    unfold GoInt.in_range, GoInt.min_int, GoInt.max_int in *. lia. }
  rewrite Hsum.
  destruct (largestPool scaled) as [[name size]|] eqn:Hlargest; [|lia].
  case_decide; [|lia].
  apply largestPool_lookup in Hlargest.
  rewrite SumUpMapValues_total, (sumOfSizes_replace _ _ _ _ Hlargest).
  replace (sumOfSizes scaled - size + (size + (available - sumOfSizes scaled)))
    with available by lia.
  by rewrite GoIntFacts.wrap_id.
Qed.

(** With the example rule, the regulated sizes add up to at most an
    [available] that is not below zero, for every demand of sizes that are
    not below zero and whose total is a Go [int]. *)
Lemma regulate_scaleDown_fits (demand : gmap string Z) (available : Z)
    (reclaimEnabled : bool) :
  map_Forall (λ _ size, 0 ≤ size) demand →
  GoInt.in_range (sumOfSizes demand) →
  0 ≤ available →
  SumUpMapValues (regulate scaleDown demand available reclaimEnabled).1 ≤ available.
Proof.
  intros Hsizes Hrange Havailable. unfold regulate.
  case_decide as Hcmp; cbn [fst]; [done|].
  apply scaleDown_fits; [done..|].
  rewrite SumUpMapValues_total, GoIntFacts.wrap_id in Hcmp by done. lia.
Qed.

(** ** The statements at concrete snapshots *)

Lemma AssembleProvision_failure_witness :
  (AssembleProvision (regulate scaleDown) Scenario.failing 1).1 =
  Returned zeroResult false (Some (CollaboratorError "no provision")).
Proof.
  eapply proj1,
    (AssembleProvision_failure (regulate scaleDown) Scenario.failing 1
       [Scenario.shareRegion "share" 5] Scenario.brokenRegion []).
  - reflexivity.
  - reflexivity.
  - left. reflexivity.
Defined.



Lemma AssembleProvision_reclaim_entry_witness :
  let l :=
    caseShare (Scenario.shareRegion "share" 5) (Scenario.knobs 5 0 0)
      (initLocals Scenario.oneShare 1) in
  let result := (finish (regulate scaleDown) Scenario.oneShare true l).1 in
  (AssembleProvision (regulate scaleDown) Scenario.oneShare 1).1
    = Returned result true None
  ∧ poolEntry result PoolNameReclaim FakedNUMAID = Some 6.
Proof.
  intros l result. split; [reflexivity|].
  destruct (AssembleProvision_reclaim_entry (regulate scaleDown) Scenario.oneShare 1
              result true eq_refl) as (l' & regulated & Hloop & Hregulated & Hentry & _).
  rewrite Hentry, Hregulated. injection Hloop as <-. by vm_compute.
Defined.

Lemma AssembleProvision_reclaim_enabled_witness :
  let pa := Scenario.overcommitted in
  let r := Scenario.dedicatedRegion {[ 0 ]} {[ "pod"%string ]} 12 in
  let l := initLocals pa 1 in
  (processRegion pa true r l).1 = Continue (setEntry PoolNameReclaim 0 (-1) l)
  ∧ ∃ result,
      (AssembleProvision (regulate scaleDown) pa 1).1 = Returned result true None
      ∧ poolEntry result PoolNameReclaim 0 = Some (-1).
Proof.
  pose proof (AssembleProvision_reclaim_enabled (regulate scaleDown)
                Scenario.overcommitted 1 []
                (Scenario.dedicatedRegion {[ 0 ]} {[ "pod"%string ]} 12) []
                (initLocals Scenario.overcommitted 1) 0
                eq_refl eq_refl eq_refl eq_refl eq_refl eq_refl eq_refl)
    as (Hstep & _ & Hresult).
  split; [exact Hstep|].
  eexists. split; [reflexivity|].
  apply (Hresult _ true); [reflexivity|done|constructor].
Defined.

Lemma AssembleProvision_reclaim_disabled_witness :
  let r := Scenario.dedicatedRegion {[ 0 ]} {[ "pod"%string ]} 4 in
  (∃ result,
     (AssembleProvision (regulate scaleDown) (Scenario.oneDedicated 3) 1).1
       = Returned result true None
     ∧ poolEntry result PoolNameReclaim 0 = Some 3)
  ∧ (∃ result,
       (AssembleProvision (regulate scaleDown) (Scenario.oneDedicated 0) 1).1
         = Returned result true None
       ∧ poolEntry result PoolNameReclaim 0 = None).
Proof.
  split.
  - pose proof (AssembleProvision_reclaim_disabled (regulate scaleDown)
                  (Scenario.oneDedicated 3) 1 []
                  (Scenario.dedicatedRegion {[ 0 ]} {[ "pod"%string ]} 4) []
                  (initLocals (Scenario.oneDedicated 3) 1) 0
                  eq_refl eq_refl eq_refl eq_refl eq_refl eq_refl eq_refl)
      as (_ & _ & Hresult).
    eexists. split; [reflexivity|].
    apply (Hresult _ true); [reflexivity|done|constructor].
  - pose proof (AssembleProvision_reclaim_disabled (regulate scaleDown)
                  (Scenario.oneDedicated 0) 1 []
                  (Scenario.dedicatedRegion {[ 0 ]} {[ "pod"%string ]} 4) []
                  (initLocals (Scenario.oneDedicated 0) 1) 0
                  eq_refl eq_refl eq_refl eq_refl eq_refl eq_refl eq_refl)
      as (_ & _ & Hresult).
    eexists. split; [reflexivity|].
    apply (Hresult _ true); [reflexivity|done|constructor].
Defined.

Lemma AssembleProvision_pod_count_counterexample :
  let pa := Scenario.brokenOnly in
  regionMap pa = [Scenario.brokenRegion]
  ∧ Type_ Scenario.brokenRegion = QoSRegionTypeDedicatedNumaExclusive
  ∧ Pods (GetPods Scenario.brokenRegion) = 0
  ∧ (AssembleProvision (regulate scaleDown) pa 1).1 =
      Returned zeroResult false (Some (CollaboratorError "no provision")).
Proof. by vm_compute. Qed.

Lemma AssembleProvision_pod_count_witness :
  (AssembleProvision (regulate scaleDown) (Scenario.dedicatedWithPods ∅) 1).1 =
    Returned zeroResult false (Some (MoreThanOnePodError ∅))
  ∧ (AssembleProvision (regulate scaleDown)
       (Scenario.dedicatedWithPods {[ "pod"%string; "other"%string ]}) 1).1 =
      Returned zeroResult false
        (Some (MoreThanOnePodError {[ "pod"%string; "other"%string ]})).
Proof.
  split.
  - refine (AssembleProvision_pod_count (regulate scaleDown)
              (Scenario.dedicatedWithPods ∅) 1
              [Scenario.shareRegion "share" 5] (Scenario.dedicatedRegion {[ 0 ]} ∅ 4) []
              (caseShare (Scenario.shareRegion "share" 5) (Scenario.knobs 5 0 0)
                 (initLocals (Scenario.dedicatedWithPods ∅) 1))
              eq_refl eq_refl eq_refl eq_refl _ _); by vm_compute.
  - refine (AssembleProvision_pod_count (regulate scaleDown)
              (Scenario.dedicatedWithPods {[ "pod"%string; "other"%string ]}) 1
              [Scenario.shareRegion "share" 5]
              (Scenario.dedicatedRegion {[ 0 ]} {[ "pod"%string; "other"%string ]} 4) []
              (caseShare (Scenario.shareRegion "share" 5) (Scenario.knobs 5 0 0)
                 (initLocals
                    (Scenario.dedicatedWithPods {[ "pod"%string; "other"%string ]}) 1))
              eq_refl eq_refl eq_refl eq_refl _ _); by vm_compute.
Defined.



Lemma AssembleProvision_binding_numa_witness :
  Pods (GetPods (Scenario.dedicatedRegion ∅ ∅ 4)) = 0
  ∧ (AssembleProvision (regulate scaleDown) Scenario.unbound 1).1 = Panicked.
Proof.
  split; [by vm_compute|].
  refine (proj1 (proj2
    (AssembleProvision_binding_numa (regulate scaleDown) Scenario.unbound 1
       [Scenario.shareRegion "share" 5] (Scenario.dedicatedRegion ∅ ∅ 4) []
       (caseShare (Scenario.shareRegion "share" 5) (Scenario.knobs 5 0 0)
          (initLocals Scenario.unbound 1))
       eq_refl eq_refl eq_refl eq_refl) eq_refl)).
Defined.

(** * Further properties *)

(** ** The reservation of a set of NUMA ids *)

(** In a sum over a slice, an id without a reservation counts as an id with
    the reservation zero. *)
Lemma reservedOverSlice_total pa (ids : list Z) :
  reservedOverSlice pa ids =
  GoInt.wrap (total ((λ id, default 0 (reservedForReclaim pa !! id)) <$> ids)).
Proof.
  unfold reservedOverSlice. rewrite fold_left_reserved by (by vm_compute).
  rewrite fold_left_add_total by (by vm_compute). by rewrite Z.add_0_l.
Qed.

(** X1.  [getNumasReservedForReclaim] does not depend on the order in which
    the slice lists the NUMA ids of the set: the loop over any slice that
    lists each id of the set once returns the same reservation.  When the
    reservations of the set, zero for an id without one, add up within the
    range of a Go [int], that reservation is their exact sum. *)
Theorem getNumasReservedForReclaim_order
    (pa : ProvisionAssemblerCommon) (numas : CPUSet) (ids : list Z) :
  ids ≡ₚ elements numas →
  reservedOverSlice pa ids = getNumasReservedForReclaim pa numas
  ∧ (GoInt.in_range (sumOverNumas (reservedForReclaim pa) numas) →
     getNumasReservedForReclaim pa numas = sumOverNumas (reservedForReclaim pa) numas).
Proof.
  intros Hids. rewrite reservedOverSlice_total, getNumasReservedForReclaim_total. split.
  - f_equal. apply total_Permutation. by rewrite Hids.
  - apply GoIntFacts.wrap_id.
Qed.

Lemma sumOverNumas_union (m : gmap Z Z) (numas1 numas2 : CPUSet) :
  numas1 ## numas2 →
  sumOverNumas m (numas1 ∪ numas2) = sumOverNumas m numas1 + sumOverNumas m numas2.
Proof.
  intros Hdisjoint. unfold sumOverNumas.
  rewrite (total_Permutation _ _
             (fmap_Permutation _ _ _ (elements_disj_union numas1 numas2 Hdisjoint))).
  rewrite fmap_app. unfold total. generalize (elements numas1).
  induction l as [|id ids IH]; cbn; [done|]. rewrite IH. lia.
Qed.

(** X2.  The reservation of two disjoint sets of NUMA ids together is the sum,
    in Go's [int], of their reservations: the reservation of the node splits
    into the reservations of the binding and of the non-binding NUMA ids. *)
Theorem getNumasReservedForReclaim_union
    (pa : ProvisionAssemblerCommon) (numas1 numas2 : CPUSet) :
  numas1 ## numas2 →
  getNumasReservedForReclaim pa (numas1 ∪ numas2) =
  GoInt.add (getNumasReservedForReclaim pa numas1) (getNumasReservedForReclaim pa numas2).
Proof.
  intros Hdisjoint. rewrite !getNumasReservedForReclaim_total.
  rewrite sumOverNumas_union by done. unfold GoInt.add.
  by rewrite GoIntFacts.wrap_add_l, GoIntFacts.wrap_add_r.
Qed.

(** X3.  The reservation of a set of NUMA ids reads the reservations of the
    ids of the set only, and an id without a reservation counts as an id with
    the reservation zero: two maps that agree on the set in this sense give
    the same reservation, and the empty set has the reservation zero. *)
Theorem getNumasReservedForReclaim_frame
    (pa : ProvisionAssemblerCommon) (reserved : gmap Z Z) (numas : CPUSet) :
  (∀ id, id ∈ numas →
     default 0 (reserved !! id) = default 0 (reservedForReclaim pa !! id)) →
  getNumasReservedForReclaim (withReserved pa reserved) numas =
    getNumasReservedForReclaim pa numas
  ∧ getNumasReservedForReclaim pa ∅ = 0.
Proof.
  intros Hagree. split; [|done].
  rewrite !getNumasReservedForReclaim_total. f_equal. unfold sumOverNumas. f_equal.
  apply list_fmap_ext. intros i id Hid. apply Hagree.
  apply elem_of_elements. by apply list_elem_of_lookup_2 in Hid.
Qed.

(** ** The calls that return without an error *)

(** Whether a body reaches its end depends on the region, not on the
    locals. *)
Lemma processRegion_passes pa r l :
  (∃ l', (processRegion pa (EnableReclaim (conf pa)) r l).1 = Continue l')
  ↔ regionPasses pa r = true.
Proof.
  unfold processRegion, regionPasses.
  destruct (GetProvision r) as [controlKnob [err|]]; cbn [fst snd].
  { split; [by intros [? ?]|done]. }
  destruct (Type_ r); cbn [fst]; try (split; [done|eauto]).
  unfold caseDedicatedNumaExclusive.
  destruct (ToSliceInt (GetBindingNumas r)) as [|regionNuma ?] eqn:Hslice.
  { apply ToSliceInt_nil in Hslice.
    rewrite bool_decide_eq_false_2 by (by intros ?). split; [by intros [? ?]|done]. }
  rewrite (bool_decide_eq_true_2 (GetBindingNumas r ≠ ∅))
    by (intros Hempty%ToSliceInt_nil; by rewrite Hempty in Hslice).
  case_decide as Hpods.
  { rewrite bool_decide_eq_false_2 by done. split; [by intros [? ?]|done]. }
  rewrite bool_decide_eq_true_2 by (by destruct (decide (Pods (GetPods r) = 1))).
  destruct (PopAny (GetPods r)) as [[[podUID ?] ?] podSet]. cbn [fst andb].
  destruct (PodEnableReclaim (metaServer pa) podUID (EnableReclaim (conf pa)))
    as [enable [err|]]; cbn [fst snd].
  { split; [by intros [? ?]|done]. }
  split; [done|intros _].
  destruct enable; cbn; [eauto|case_decide; eauto].
Qed.

Lemma rangeRegionMap_passes pa regions l :
  (∃ l', (rangeRegionMap pa (EnableReclaim (conf pa)) regions l).1 = Continue l')
  ↔ Forall (λ r, regionPasses pa r = true) regions.
Proof.
  revert l. induction regions as [|r regions IH]; intros l.
  - split; [constructor|eauto].
  - rewrite rangeRegionMap_cons, Forall_cons, <- (processRegion_passes pa r l). split.
    + intros [l' Hloop].
      destruct (processRegion pa _ r l).1 as [l''| |]; [|done..].
      split; [eauto|]. apply (IH l''). eauto.
    + intros [[l'' Hstep] Hrest]. rewrite Hstep. by apply IH.
Qed.

Lemma AssembleProvision_succeeds regulatePoolSizes pa now :
  succeeds (AssembleProvision regulatePoolSizes pa now).1
  ↔ Forall (λ r, regionPasses pa r = true) (regionMap pa).
Proof.
  rewrite <- (rangeRegionMap_passes pa (regionMap pa) (initLocals pa now)).
  rewrite AssembleProvision_outcome. unfold succeeds.
  destruct (rangeRegionMap pa _ (regionMap pa) (initLocals pa now)).1 as [l| |].
  - destruct (finish regulatePoolSizes pa (EnableReclaim (conf pa)) l). split; eauto.
  - split; [by intros (? & ? & ?)|by intros [? ?]].
  - split; [by intros (? & ? & ?)|by intros [? ?]].
Qed.

(** The body of the loop does not read the region map. *)
Lemma rangeRegionMap_withRegionMap pa regions' nodeEnableReclaim regions l :
  rangeRegionMap (withRegionMap pa regions') nodeEnableReclaim regions l =
  rangeRegionMap pa nodeEnableReclaim regions l.
Proof.
  revert l. induction regions as [|r regions IH]; intros l; [done|].
  cbn [rangeRegionMap].
  change (processRegion (withRegionMap pa regions') nodeEnableReclaim r l)
    with (processRegion pa nodeEnableReclaim r l).
  destruct (processRegion pa nodeEnableReclaim r l) as [[l'| |] r']; [|done..].
  by rewrite IH.
Qed.

(** X4.  A call returns without an error, and without a panic, exactly when
    the body of the loop passes for every region of the map: every
    [GetProvision] returns no error and every region dedicated to a NUMA node
    has a binding NUMA id, holds one pod and has a policy lookup that returns
    no error.  So a map of share and isolation regions whose [GetProvision]
    succeeds never fails, the regulator has no part in a failure, and whether
    a call fails does not depend on the order in which the loop visits the
    regions. *)
Theorem AssembleProvision_succeeds_iff
    (regulatePoolSizes : gmap string Z → Z → bool → gmap string Z * bool)
    (pa : ProvisionAssemblerCommon) (now : Time) :
  (succeeds (AssembleProvision regulatePoolSizes pa now).1
   ↔ Forall (λ r, regionPasses pa r = true) (regionMap pa))
  ∧ (∀ regions',
       regionMap pa ≡ₚ regions' →
       succeeds (AssembleProvision regulatePoolSizes (withRegionMap pa regions') now).1
       ↔ succeeds (AssembleProvision regulatePoolSizes pa now).1).
Proof.
  split; [apply AssembleProvision_succeeds|].
  intros regions' Hregions. rewrite !AssembleProvision_succeeds.
  change (regionMap (withRegionMap pa regions')) with regions'.
  rewrite <- Hregions. apply Forall_iff. intros r.
  by change (regionPasses (withRegionMap pa regions') r) with (regionPasses pa r).
Qed.

(** ** The order in which the loop visits the regions *)

(** A body ends the same way on all locals, and one that reaches its end
    changes the locals in one of four ways. *)
Lemma processRegion_effect pa nodeEnableReclaim r :
  (∃ flow, (∀ l', flow ≠ Continue l')
           ∧ ∀ l, (processRegion pa nodeEnableReclaim r l).1 = flow)
  ∨ (∃ f, effectShape r f
          ∧ ∀ l, (processRegion pa nodeEnableReclaim r l).1 = Continue (f l)).
Proof.
  unfold processRegion, effectShape, writtenSlot, demandKey.
  destruct (GetProvision r) as [controlKnob [err|]]; [left; by exists (Return err)|].
  destruct (Type_ r); cbn [fst].
  - right. exists (caseShare r controlKnob). split; [|done]. by left.
  - right. exists (caseIsolation r controlKnob). split; [|done]. right; by left.
  - unfold caseDedicatedNumaExclusive.
    destruct (ToSliceInt (GetBindingNumas r)) as [|regionNuma ?];
      [left; by exists Panic|].
    case_decide; [left; by eexists (Return _)|].
    destruct (PopAny (GetPods r)) as [[[podUID ?] ?] podSet].
    destruct (PodEnableReclaim (metaServer pa) podUID nodeEnableReclaim)
      as [enable [err|]]; [left; by exists (Return err)|].
    right. destruct enable; cbn; [|case_decide].
    + eexists (setEntry PoolNameReclaim regionNuma _). split; [|done].
      right; right; left. eauto.
    + eexists (setEntry PoolNameReclaim regionNuma _). split; [|done].
      right; right; left. eauto.
    + exists (λ l, l). split; [|done]. by repeat right.
  - right. exists (λ l, l). split; [|done]. by repeat right.
Qed.

Lemma SetPoolEntry_commute poolName numaID1 poolSize1 numaID2 poolSize2 ic :
  numaID1 ≠ numaID2 →
  SetPoolEntry poolName numaID1 poolSize1 (SetPoolEntry poolName numaID2 poolSize2 ic) =
  SetPoolEntry poolName numaID2 poolSize2 (SetPoolEntry poolName numaID1 poolSize1 ic).
Proof.
  intros Hnuma. unfold SetPoolEntry. cbn [PoolEntries TimeStamp]. f_equal.
  rewrite !lookup_insert_eq, !insert_insert_eq. cbn [default id].
  by rewrite insert_insert_ne.
Qed.

(** Two bodies that write different slots can change places. *)
Lemma effectShape_commute r1 r2 f1 f2 l :
  effectShape r1 f1 → effectShape r2 f2 →
  (∀ slot1 slot2,
     writtenSlot r1 = Some slot1 → writtenSlot r2 = Some slot2 → slot1 ≠ slot2) →
  f1 (f2 l) = f2 (f1 l).
Proof.
  unfold effectShape, writtenSlot.
  intros [[Htype1 ->] | [[Htype1 ->] | [(n1 & v1 & Hslot1 & ->) | [_ ->]]]]
         [[Htype2 ->] | [[Htype2 ->] | [(n2 & v2 & Hslot2 & ->) | [_ ->]]]]
         Hslots; try done.
  - rewrite Htype1, Htype2 in Hslots.
    assert (OwnerPoolName r1 ≠ OwnerPoolName r2) as Howner.
    { intros Heq. apply (Hslots _ _ eq_refl eq_refl). by rewrite Heq. }
    unfold caseShare. cbn. rewrite !lookup_insert_eq. cbn. f_equal.
    + apply GoIntFacts.add_swap_r.
    + by apply insert_insert_ne.
  - rewrite Htype1, Htype2 in Hslots.
    assert (Name r1 ≠ Name r2) as Hname.
    { intros Heq. apply (Hslots _ _ eq_refl eq_refl). by rewrite Heq. }
    unfold caseIsolation. cbn. rewrite !lookup_insert_eq. cbn. f_equal.
    + apply GoIntFacts.add_swap_r.
    + by apply insert_insert_ne.
    + by apply insert_insert_ne.
  - assert (n1 ≠ n2) as Hnuma.
    { intros ->. by apply (Hslots _ _ Hslot1 Hslot2). }
    unfold setEntry. cbn. f_equal. by apply SetPoolEntry_commute.
Qed.

Lemma rangeRegionMap_Permutation pa nodeEnableReclaim regions regions' :
  regions ≡ₚ regions' →
  NoDup (omap writtenSlot regions) →
  ∀ l l',
    (rangeRegionMap pa nodeEnableReclaim regions l).1 = Continue l' →
    (rangeRegionMap pa nodeEnableReclaim regions' l).1 = Continue l'.
Proof.
  induction 1 as [|r regions regions' _ IH|r1 r2 regions|regions1 regions2 regions3 H12 IH12 _ IH23];
    intros Hnodup l l'.
  - done.
  - rewrite !rangeRegionMap_cons.
    destruct (processRegion pa nodeEnableReclaim r l).1 as [l''| |]; [|done..].
    apply IH. cbn [omap list_omap] in Hnodup.
    destruct (writtenSlot r); [by apply NoDup_cons in Hnodup as []|done].
  - intros Hloop. rewrite rangeRegionMap_cons in Hloop |- *.
    destruct (processRegion_effect pa nodeEnableReclaim r1)
      as [(flow1 & Hstop1 & Hflow1) | (f1 & Hshape1 & Hflow1)];
      destruct (processRegion_effect pa nodeEnableReclaim r2)
        as [(flow2 & Hstop2 & Hflow2) | (f2 & Hshape2 & Hflow2)];
      rewrite Hflow2 in Hloop; rewrite Hflow1.
    + destruct flow2; [by destruct (Hstop2 locals)|done..].
    + rewrite rangeRegionMap_cons, Hflow1 in Hloop.
      destruct flow1; [by destruct (Hstop1 locals)|done..].
    + destruct flow2; [by destruct (Hstop2 locals)|done..].
    + rewrite rangeRegionMap_cons, Hflow1 in Hloop. rewrite rangeRegionMap_cons, Hflow2.
      rewrite <- (effectShape_commute r1 r2 f1 f2 l Hshape1 Hshape2); [done|].
      intros slot1 slot2 Hslot1 Hslot2 ->.
      cbn [omap list_omap] in Hnodup. rewrite Hslot1, Hslot2 in Hnodup.
      apply NoDup_cons in Hnodup as [Hnotin _]. apply Hnotin. left.
  - intros Hloop. apply IH23; [by rewrite <- H12|]. by apply IH12.
Qed.

(** X5.  The result of a call that returns without an error does not depend
    on the order in which the loop visits the regions, as long as no two
    regions write the same slot (two share regions the size of one owner
    pool, two isolation regions the sizes of one name, two dedicated regions
    the reclaim entry of one NUMA id): a call over the same regions in
    another order returns the same result and the same [boundUpper]. *)
Theorem AssembleProvision_order
    (regulatePoolSizes : gmap string Z → Z → bool → gmap string Z * bool)
    (pa : ProvisionAssemblerCommon) (now : Time) (regions' : list QoSRegion)
    (result : InternalCPUCalculationResult) (boundUpper : bool) :
  regionMap pa ≡ₚ regions' →
  NoDup (omap writtenSlot (regionMap pa)) →
  (AssembleProvision regulatePoolSizes pa now).1 = Returned result boundUpper None →
  (AssembleProvision regulatePoolSizes (withRegionMap pa regions') now).1
    = Returned result boundUpper None.
Proof.
  intros Hregions Hnodup. rewrite !AssembleProvision_outcome.
  change (EnableReclaim (conf (withRegionMap pa regions'))) with (EnableReclaim (conf pa)).
  change (regionMap (withRegionMap pa regions')) with regions'.
  change (initLocals (withRegionMap pa regions') now) with (initLocals pa now).
  rewrite rangeRegionMap_withRegionMap.
  destruct (rangeRegionMap pa _ (regionMap pa) (initLocals pa now)).1 as [l| |] eqn:Hloop;
    [|done..].
  rewrite (rangeRegionMap_Permutation pa _ _ _ Hregions Hnodup _ _ Hloop).
  by change (finish regulatePoolSizes (withRegionMap pa regions') (EnableReclaim (conf pa)) l)
    with (finish regulatePoolSizes pa (EnableReclaim (conf pa)) l).
Qed.

(** ** What the result holds *)

Lemma effectShape_TimeStamp r f l :
  effectShape r f →
  TimeStamp (calculationResult (f l)) = TimeStamp (calculationResult l).
Proof.
  intros [[_ ->] | [[_ ->] | [(n & v & _ & ->) | [_ ->]]]]; done.
Qed.

Lemma rangeRegionMap_TimeStamp pa nodeEnableReclaim regions l l' :
  (rangeRegionMap pa nodeEnableReclaim regions l).1 = Continue l' →
  TimeStamp (calculationResult l') = TimeStamp (calculationResult l).
Proof.
  revert l. induction regions as [|r regions IH]; intros l.
  - by intros [= <-].
  - rewrite rangeRegionMap_cons.
    destruct (processRegion_effect pa nodeEnableReclaim r)
      as [(flow & Hstop & Hflow) | (f & Hshape & Hflow)]; rewrite Hflow.
    + destruct flow; [by destruct (Hstop locals)|done..].
    + intros Hloop. rewrite (IH _ Hloop). by apply (effectShape_TimeStamp r).
Qed.

Lemma setRegulatedEntries_TimeStamp sizes ic :
  TimeStamp (setRegulatedEntries sizes ic) = TimeStamp ic.
Proof.
  unfold setRegulatedEntries.
  by apply (map_fold_weak_ind (λ res (_ : gmap string Z), TimeStamp res = TimeStamp ic)).
Qed.

Lemma initLocals_poolEntry pa now poolName numaID :
  poolEntry (calculationResult (initLocals pa now)) poolName numaID =
  if decide (poolName = PoolNameReserve ∧ numaID = FakedNUMAID)
  then Some (GetPoolSize (metaReader pa) PoolNameReserve).1
  else None.
Proof.
  rewrite initLocals_reserve_entry. case_decide as Hkey.
  - destruct Hkey as [-> ->]. apply poolEntry_SetPoolEntry_eq.
  - rewrite poolEntry_SetPoolEntry_ne; [done|].
    destruct (decide (PoolNameReserve = poolName)); [|by left].
    right. intros <-. by apply Hkey.
Qed.

(** X6.  The result of a call that returns without an error carries the time
    of the call.  Outside the reclaim pool it holds node-wide entries only:
    one for each regulated pool, with the regulated size, and the reserve
    pool entry if no regulated pool has that name.  The reclaim pool has no
    entry for a NUMA id, the node-wide id apart, that is not the first
    binding NUMA id of a dedicated region of the map. *)
Theorem AssembleProvision_entries
    (regulatePoolSizes : gmap string Z → Z → bool → gmap string Z * bool)
    (pa : ProvisionAssemblerCommon) (now : Time)
    (result : InternalCPUCalculationResult) (boundUpper : bool) (l : Locals) :
  (AssembleProvision regulatePoolSizes pa now).1 = Returned result boundUpper None →
  (rangeRegionMap pa (EnableReclaim (conf pa)) (regionMap pa) (initLocals pa now)).1
    = Continue l →
  let regulated :=
    (regulatePoolSizes (shareAndIsolatePoolSizes pa l)
       (shareAndIsolatedPoolAvailable pa) (EnableReclaim (conf pa))).1 in
  TimeStamp result = now
  ∧ (∀ poolName numaID,
       poolName ≠ PoolNameReclaim →
       poolEntry result poolName numaID =
       if decide (numaID = FakedNUMAID)
       then match regulated !! poolName with
            | Some poolSize => Some poolSize
            | None =>
                if decide (poolName = PoolNameReserve)
                then Some (GetPoolSize (metaReader pa) PoolNameReserve).1
                else None
            end
       else None)
  ∧ (∀ numaID,
       numaID ≠ FakedNUMAID →
       Forall (λ r, Type_ r = QoSRegionTypeDedicatedNumaExclusive →
                    head (ToSliceInt (GetBindingNumas r)) ≠ Some numaID) (regionMap pa) →
       poolEntry result PoolNameReclaim numaID = None).
Proof.
  rewrite AssembleProvision_outcome. intros Hresult Hloop regulated.
  rewrite Hloop in Hresult.
  assert (result = (finish regulatePoolSizes pa (EnableReclaim (conf pa)) l).1) as ->.
  { destruct (finish regulatePoolSizes pa (EnableReclaim (conf pa)) l).
    by injection Hresult as <- _. }
  clear Hresult. split; [|split].
  - unfold finish. fold regulated.
    destruct (regulatePoolSizes _ _ _) as [regulated' bound]. cbn.
    rewrite setRegulatedEntries_TimeStamp, (rangeRegionMap_TimeStamp _ _ _ _ _ Hloop).
    unfold initLocals. by destruct (GetPoolSize (metaReader pa) PoolNameReserve).
  - intros poolName numaID Hpool. unfold finish. subst regulated.
    destruct (regulatePoolSizes _ _ _) as [regulated bound]. cbn [fst].
    rewrite poolEntry_SetPoolEntry_ne by auto.
    rewrite poolEntry_setRegulatedEntries.
    rewrite (rangeRegionMap_poolEntry _ _ _ _ _ _ _ Hloop Hpool), initLocals_poolEntry.
    destruct (regulated !! poolName); repeat case_decide; try done; tauto.
  - intros numaID Hnuma Hothers.
    rewrite finish_keeps_entry by done.
    rewrite (rangeRegionMap_keeps_entry _ _ _ _ _ _ Hloop Hothers).
    apply initLocals_no_reclaim_entry.
Qed.

(** ** Regions of other types *)

Lemma rangeRegionMap_unhandled pa nodeEnableReclaim regions l :
  (rangeRegionMap pa nodeEnableReclaim (filter (λ r, unhandled r = false) regions) l).1 =
  (rangeRegionMap pa nodeEnableReclaim regions l).1.
Proof.
  revert l. induction regions as [|r regions IH]; intros l; [done|].
  rewrite filter_cons. case_decide as Hr.
  - rewrite !rangeRegionMap_cons.
    destruct (processRegion pa nodeEnableReclaim r l).1; [apply IH|done..].
  - rewrite rangeRegionMap_cons, IH.
    assert ((processRegion pa nodeEnableReclaim r l).1 = Continue l) as ->; [|done].
    unfold unhandled, processRegion in *.
    destruct (GetProvision r) as [controlKnob [err|]], (Type_ r); done.
Qed.

(** X7.  A region of a type other than share, isolation and dedicated whose
    [GetProvision] returns no error has no part in a call: the call over the
    map without these regions does what the call over the map does. *)
Theorem AssembleProvision_unhandled
    (regulatePoolSizes : gmap string Z → Z → bool → gmap string Z * bool)
    (pa : ProvisionAssemblerCommon) (now : Time) :
  (AssembleProvision regulatePoolSizes
     (withRegionMap pa (filter (λ r, unhandled r = false) (regionMap pa))) now).1
  = (AssembleProvision regulatePoolSizes pa now).1.
Proof.
  rewrite !AssembleProvision_outcome.
  set (regions' := filter (λ r, unhandled r = false) (regionMap pa)).
  change (EnableReclaim (conf (withRegionMap pa regions'))) with (EnableReclaim (conf pa)).
  change (regionMap (withRegionMap pa regions')) with regions'.
  change (initLocals (withRegionMap pa regions') now) with (initLocals pa now).
  rewrite rangeRegionMap_withRegionMap. unfold regions'.
  rewrite rangeRegionMap_unhandled.
  destruct (rangeRegionMap pa _ (regionMap pa) (initLocals pa now)).1 as [l| |]; [|done..].
  by change (finish regulatePoolSizes (withRegionMap pa regions') (EnableReclaim (conf pa)) l)
    with (finish regulatePoolSizes pa (EnableReclaim (conf pa)) l).
Qed.

(** ** The size of the node-wide reclaim pool *)

(** X8.  With node reclaim enabled, a regulator that keeps the total of the
    regulated sizes within the available resource of the non-binding NUMA
    ids leaves the node-wide reclaim pool at least the reservation of those
    NUMA ids, provided the size fits a Go [int]: the entry is the available
    resource that the regulated pools leave, plus the reservation. *)
Theorem AssembleProvision_reclaim_floor
    (regulatePoolSizes : gmap string Z → Z → bool → gmap string Z * bool)
    (pa : ProvisionAssemblerCommon) (now : Time)
    (result : InternalCPUCalculationResult) (boundUpper : bool) (l : Locals) :
  (AssembleProvision regulatePoolSizes pa now).1 = Returned result boundUpper None →
  (rangeRegionMap pa (EnableReclaim (conf pa)) (regionMap pa) (initLocals pa now)).1
    = Continue l →
  EnableReclaim (conf pa) = true →
  let regulated :=
    (regulatePoolSizes (shareAndIsolatePoolSizes pa l)
       (shareAndIsolatedPoolAvailable pa) true).1 in
  let reservation := getNumasReservedForReclaim pa (nonBindingNumas pa) in
  SumUpMapValues regulated ≤ shareAndIsolatedPoolAvailable pa →
  GoInt.in_range
    (shareAndIsolatedPoolAvailable pa - SumUpMapValues regulated + reservation) →
  ∃ reclaimPoolSize,
    poolEntry result PoolNameReclaim FakedNUMAID = Some reclaimPoolSize
    ∧ reclaimPoolSize =
        shareAndIsolatedPoolAvailable pa - SumUpMapValues regulated + reservation
    ∧ reservation ≤ reclaimPoolSize.
Proof.
  rewrite AssembleProvision_outcome. intros Hresult Hloop Henable regulated reservation.
  rewrite Hloop in Hresult. unfold finish in Hresult. rewrite Henable in Hresult.
  fold regulated in Hresult.
  destruct (regulatePoolSizes _ _ _) as [regulated' bound] eqn:Hregulated.
  cbn [fst] in regulated. subst regulated. injection Hresult as <- <-.
  intros Hfits Hrange. eexists. split; [apply poolEntry_SetPoolEntry_eq|].
  unfold reclaimPoolSizeOfNonBindingNumas. fold reservation.
  unfold GoInt.add, GoInt.sub. rewrite GoIntFacts.wrap_add_l, GoIntFacts.wrap_id by done.
  split; [done|lia].
Qed.

(** ** The demand handed to the regulator *)

Lemma rangeRegionMap_effect_ind pa nodeEnableReclaim (P : Locals → Locals → list QoSRegion → Prop) :
  (∀ l, P l l []) →
  (∀ r regions f l l',
     effectShape r f →
     (rangeRegionMap pa nodeEnableReclaim regions (f l)).1 = Continue l' →
     P (f l) l' regions → P l l' (r :: regions)) →
  ∀ regions l l',
    (rangeRegionMap pa nodeEnableReclaim regions l).1 = Continue l' → P l l' regions.
Proof.
  intros Hnil Hcons regions. induction regions as [|r regions IH]; intros l l'.
  - intros [= <-]. apply Hnil.
  - rewrite rangeRegionMap_cons.
    destruct (processRegion_effect pa nodeEnableReclaim r)
      as [(flow & Hstop & Hflow) | (f & Hshape & Hflow)]; rewrite Hflow.
    + destruct flow; [by destruct (Hstop locals)|done..].
    + intros Hloop. apply (Hcons r regions f); [done..|]. by apply IH.
Qed.

(** The names under which the loop holds a demand are the names it held one
    under before, and the demand keys of the regions. *)
Lemma rangeRegionMap_usedKeys pa nodeEnableReclaim regions l l' :
  (rangeRegionMap pa nodeEnableReclaim regions l).1 = Continue l' →
  dom (isolationLowerSizes l) = dom (isolationUpperSizes l) →
  usedKeys l' = usedKeys l ∪ list_to_set (demandKeys regions)
  ∧ dom (isolationLowerSizes l') = dom (isolationUpperSizes l').
Proof.
  revert regions l l'.
  apply (rangeRegionMap_effect_ind pa nodeEnableReclaim
           (λ l l' regions,
              dom (isolationLowerSizes l) = dom (isolationUpperSizes l) →
              usedKeys l' = usedKeys l ∪ list_to_set (demandKeys regions)
              ∧ dom (isolationLowerSizes l') = dom (isolationUpperSizes l'))).
  - intros l Hdom. split; [|done]. cbn. by rewrite (right_id_L ∅ (∪)).
  - intros r regions f l l' Hshape _ IH Hdom.
    unfold demandKeys, demandKey, usedKeys in *. cbn [omap list_omap].
    destruct Hshape as [[Htype ->] | [[Htype ->] | [(n & v & Hslot & ->) | [Hkey ->]]]].
    + rewrite Htype. destruct (IH Hdom) as [-> Hdom']. split; [|done].
      cbn. rewrite dom_insert_L. apply set_eq. intros x.
      rewrite !elem_of_union, elem_of_singleton. tauto.
    + rewrite Htype. destruct IH as [-> Hdom'].
      { cbn. by rewrite !dom_insert_L, Hdom. }
      split; [|done].
      cbn. rewrite dom_insert_L. apply set_eq. intros x.
      rewrite !elem_of_union, elem_of_singleton. tauto.
    + destruct (IH Hdom) as [-> Hdom']. split; [|done].
      unfold writtenSlot in Hslot. by destruct (Type_ r).
    + destruct (IH Hdom) as [-> Hdom']. split; [|done].
      unfold demandKey in Hkey. by destruct (Type_ r).
Qed.

(** The loop leaves the sizes under a name no region has as its demand
    key. *)
Lemma rangeRegionMap_other_keys pa nodeEnableReclaim regions l l' name :
  (rangeRegionMap pa nodeEnableReclaim regions l).1 = Continue l' →
  name ∉ demandKeys regions →
  sharePoolSizes l' !! name = sharePoolSizes l !! name
  ∧ isolationUpperSizes l' !! name = isolationUpperSizes l !! name
  ∧ isolationLowerSizes l' !! name = isolationLowerSizes l !! name.
Proof.
  revert regions l l'.
  apply (rangeRegionMap_effect_ind pa nodeEnableReclaim
           (λ l l' regions,
              name ∉ demandKeys regions →
              sharePoolSizes l' !! name = sharePoolSizes l !! name
              ∧ isolationUpperSizes l' !! name = isolationUpperSizes l !! name
              ∧ isolationLowerSizes l' !! name = isolationLowerSizes l !! name)).
  - done.
  - intros r regions f l l' Hshape _ IH Hname.
    unfold demandKeys in Hname. cbn [omap list_omap] in Hname.
    destruct Hshape as [[Htype ->] | [[Htype ->] | [(n & v & Hslot & ->) | [Hkey ->]]]].
    + unfold demandKey in Hname at 1. rewrite Htype in Hname.
      apply not_elem_of_cons in Hname as [Hne Hname].
      destruct (IH Hname) as (-> & -> & ->). cbn. by rewrite lookup_insert_ne.
    + unfold demandKey in Hname at 1. rewrite Htype in Hname.
      apply not_elem_of_cons in Hname as [Hne Hname].
      destruct (IH Hname) as (-> & -> & ->). cbn. by rewrite !lookup_insert_ne.
    + apply IH. by destruct (demandKey r); [apply not_elem_of_cons in Hname as []|].
    + apply IH. by rewrite Hkey in Hname.
Qed.

(** With pairwise distinct demand keys, the loop leaves for every share
    region and every isolation region the sizes of the region under its
    key. *)
Lemma rangeRegionMap_demand pa nodeEnableReclaim regions l l' r :
  (rangeRegionMap pa nodeEnableReclaim regions l).1 = Continue l' →
  NoDup (demandKeys regions) →
  r ∈ regions →
  (Type_ r = QoSRegionTypeShare →
   sharePoolSizes l' !! OwnerPoolName r
     = Some (knobInt (GetProvision r).1 ControlKnobNonReclaimedCPUSize))
  ∧ (Type_ r = QoSRegionTypeIsolation →
     isolationUpperSizes l' !! Name r
       = Some (knobInt (GetProvision r).1 ControlKnobNonReclaimedCPUSizeUpper)
     ∧ isolationLowerSizes l' !! Name r
       = Some (knobInt (GetProvision r).1 ControlKnobNonReclaimedCPUSizeLower)).
Proof.
  revert regions l l'.
  apply (rangeRegionMap_effect_ind pa nodeEnableReclaim
           (λ l l' regions,
              NoDup (demandKeys regions) →
              r ∈ regions →
              (Type_ r = QoSRegionTypeShare →
               sharePoolSizes l' !! OwnerPoolName r
                 = Some (knobInt (GetProvision r).1 ControlKnobNonReclaimedCPUSize))
              ∧ (Type_ r = QoSRegionTypeIsolation →
                 isolationUpperSizes l' !! Name r
                   = Some (knobInt (GetProvision r).1 ControlKnobNonReclaimedCPUSizeUpper)
                 ∧ isolationLowerSizes l' !! Name r
                   = Some (knobInt (GetProvision r).1 ControlKnobNonReclaimedCPUSizeLower)))).
  - intros l _ Hin. by apply not_elem_of_nil in Hin.
  - intros r' regions f l l' Hshape Hloop IH Hnodup Hin.
    assert (NoDup (demandKeys regions)) as Hnodup'.
    { unfold demandKeys in *. cbn [omap list_omap] in Hnodup.
      destruct (demandKey r'); [by apply NoDup_cons in Hnodup as []|done]. }
    apply elem_of_cons in Hin as [->|Hin]; [|by apply IH].
    assert (∀ name, demandKey r' = Some name → name ∉ demandKeys regions) as Hfresh.
    { intros name Hkey. unfold demandKeys in *. cbn [omap list_omap] in Hnodup.
      rewrite Hkey in Hnodup. by apply NoDup_cons in Hnodup as []. }
    destruct Hshape as [[Htype ->] | [[Htype ->] | [(n & v & Hslot & ->) | [Hkey ->]]]].
    + split; intros Htype'; [|by rewrite Htype in Htype'].
      destruct (rangeRegionMap_other_keys _ _ _ _ _ (OwnerPoolName r') Hloop)
        as (-> & _ & _).
      { apply Hfresh. unfold demandKey. by rewrite Htype. }
      cbn. apply lookup_insert_eq.
    + split; intros Htype'; [by rewrite Htype in Htype'|].
      destruct (rangeRegionMap_other_keys _ _ _ _ _ (Name r') Hloop)
        as (_ & -> & ->).
      { apply Hfresh. unfold demandKey. by rewrite Htype. }
      cbn. by rewrite !lookup_insert_eq.
    + unfold writtenSlot in Hslot.
      split; intros Htype'; rewrite Htype' in Hslot; done.
    + unfold demandKey in Hkey.
      split; intros Htype'; rewrite Htype' in Hkey; done.
Qed.

(** X12.  The demand a call hands to the regulator has one pool for each
    owner pool name of a share region and each name of an isolation region of
    the map, and no other pool.  With pairwise distinct demand keys, the pool
    of a share region has the region's [NonReclaimedCPUSize] and the pool of
    an isolation region has the region's upper size, or its lower size when
    [shares + isolationUppers] exceeds the available resource of the
    non-binding NUMA ids. *)
Theorem AssembleProvision_demand
    (pa : ProvisionAssemblerCommon) (now : Time) (l : Locals) :
  (rangeRegionMap pa (EnableReclaim (conf pa)) (regionMap pa) (initLocals pa now)).1
    = Continue l →
  dom (shareAndIsolatePoolSizes pa l) = list_to_set (demandKeys (regionMap pa))
  ∧ (NoDup (demandKeys (regionMap pa)) →
     ∀ r, r ∈ regionMap pa →
       (Type_ r = QoSRegionTypeShare →
        shareAndIsolatePoolSizes pa l !! OwnerPoolName r
          = Some (knobInt (GetProvision r).1 ControlKnobNonReclaimedCPUSize))
       ∧ (Type_ r = QoSRegionTypeIsolation →
          shareAndIsolatePoolSizes pa l !! Name r
            = Some (knobInt (GetProvision r).1
                      (if decide (GoInt.add (shares l) (isolationUppers l)
                                  > shareAndIsolatedPoolAvailable pa)
                       then ControlKnobNonReclaimedCPUSizeLower
                       else ControlKnobNonReclaimedCPUSizeUpper)))).
Proof.
  intros Hloop.
  assert (dom (isolationLowerSizes (initLocals pa now))
          = dom (isolationUpperSizes (initLocals pa now))) as Hdom0.
  { unfold initLocals. by destruct (GetPoolSize (metaReader pa) PoolNameReserve). }
  destruct (rangeRegionMap_usedKeys _ _ _ _ _ Hloop Hdom0) as [Hused Hdom].
  assert (usedKeys (initLocals pa now) = ∅) as Hused0 by apply initLocals_demandInv.
  rewrite Hused0, (left_id_L ∅ (∪)) in Hused. unfold usedKeys in Hused.
  split.
  - rewrite <- Hused. unfold shareAndIsolatePoolSizes, MergeMapInt.
    case_decide; rewrite dom_union_L, ?Hdom; apply (comm_L (∪)).
  - intros Hnodup r Hin.
    destruct (rangeRegionMap_demand _ _ _ _ _ r Hloop Hnodup Hin) as [Hshare Hisolation].
    split; intros Htype.
    + specialize (Hshare Htype).
      assert (isolationUpperSizes l !! OwnerPoolName r = None) as Hupper.
      { destruct (rangeRegionMap_demandInv _ _ _ _ _ Hloop) as (_ & _ & Hdisjoint);
          [apply initLocals_demandInv|done| |].
        - intros name _. rewrite Hused0. apply not_elem_of_empty.
        - by apply (map_disjoint_Some_l _ _ _ _ Hdisjoint Hshare). }
      assert (isolationLowerSizes l !! OwnerPoolName r = None) as Hlower.
      { apply not_elem_of_dom. rewrite Hdom. by apply not_elem_of_dom. }
      unfold shareAndIsolatePoolSizes, MergeMapInt.
      case_decide; rewrite lookup_union, ?Hupper, ?Hlower, Hshare; done.
    + destruct (Hisolation Htype) as [Hupper Hlower].
      unfold shareAndIsolatePoolSizes, MergeMapInt.
      case_decide; rewrite lookup_union, ?Hupper, ?Hlower;
        by destruct (sharePoolSizes l !! Name r).
Qed.

(** ** The time of the call *)





(** ** The running totals *)

Lemma rangeRegionMap_totals pa nodeEnableReclaim regions l l' :
  (rangeRegionMap pa nodeEnableReclaim regions l).1 = Continue l' →
  GoInt.in_range (shares l) → GoInt.in_range (isolationUppers l) →
  shares l' = GoInt.wrap (shares l + total (shareSizes regions))
  ∧ isolationUppers l' =
    GoInt.wrap (isolationUppers l + total (isolationUpperBounds regions)).
Proof.
  revert regions l l'.
  apply (rangeRegionMap_effect_ind pa nodeEnableReclaim
           (λ l l' regions,
              GoInt.in_range (shares l) → GoInt.in_range (isolationUppers l) →
              shares l' = GoInt.wrap (shares l + total (shareSizes regions))
              ∧ isolationUppers l' =
                GoInt.wrap (isolationUppers l + total (isolationUpperBounds regions)))).
  - intros l Hshares Huppers. unfold total. cbn. rewrite !Z.add_0_r.
    by rewrite !GoIntFacts.wrap_id.
  - intros r regions f l l' Hshape _ IH Hshares Huppers.
    unfold shareSizes, isolationUpperBounds, total in *. cbn [omap list_omap].
    destruct Hshape as [[Htype ->] | [[Htype ->] | [(n & v & Hslot & ->) | [Hkey ->]]]].
    + rewrite Htype. destruct IH as [-> ->]; [apply GoIntFacts.add_in_range|done|].
      cbn. rewrite lookup_insert_eq. cbn. unfold GoInt.add.
      rewrite GoIntFacts.wrap_add_l. split; [f_equal; lia|done].
    + rewrite Htype. destruct IH as [-> ->]; [done|apply GoIntFacts.add_in_range|].
      cbn. rewrite lookup_insert_eq. cbn. unfold GoInt.add.
      rewrite GoIntFacts.wrap_add_l. split; [done|f_equal; lia].
    + destruct (IH Hshares Huppers) as [-> ->].
      unfold writtenSlot in Hslot. by destruct (Type_ r).
    + destruct (IH Hshares Huppers) as [-> ->].
      unfold demandKey in Hkey. by destruct (Type_ r).
Qed.

(** X14.  When the loop comes to its end, [shares] is the sum, in Go's [int],
    of the [NonReclaimedCPUSize] of all share regions and [isolationUppers]
    the sum of the upper sizes of all isolation regions: every region counts,
    also one whose key another region has, and the order of the visits does
    not matter.  These are the totals the test for the fallback to the lower
    sizes compares with the available resource. *)
Theorem AssembleProvision_totals
    (pa : ProvisionAssemblerCommon) (now : Time) (l : Locals) :
  (rangeRegionMap pa (EnableReclaim (conf pa)) (regionMap pa) (initLocals pa now)).1
    = Continue l →
  shares l = GoInt.wrap (total (shareSizes (regionMap pa)))
  ∧ isolationUppers l = GoInt.wrap (total (isolationUpperBounds (regionMap pa)))
  ∧ ∀ regions',
      regionMap pa ≡ₚ regions' →
      total (shareSizes regions') = total (shareSizes (regionMap pa))
      ∧ total (isolationUpperBounds regions')
        = total (isolationUpperBounds (regionMap pa)).
Proof.
  intros Hloop.
  assert (shares (initLocals pa now) = 0 ∧ isolationUppers (initLocals pa now) = 0)
    as [Hshares Huppers].
  { unfold initLocals. by destruct (GetPoolSize (metaReader pa) PoolNameReserve). }
  destruct (rangeRegionMap_totals _ _ _ _ _ Hloop) as [-> ->];
    [rewrite ?Hshares, ?Huppers; by vm_compute..|].
  rewrite Hshares, Huppers, !Z.add_0_l. split; [done|]. split; [done|].
  intros regions' Hregions. unfold shareSizes, isolationUpperBounds.
  split; apply total_Permutation; by rewrite Hregions.
Qed.

(** ** The further statements at concrete snapshots *)

Lemma getNumasReservedForReclaim_order_witness :
  reservedOverSlice Snapshot.mixed [0; 1] =
    getNumasReservedForReclaim Snapshot.mixed {[ 0; 1 ]}
  ∧ getNumasReservedForReclaim Snapshot.mixed {[ 0; 1 ]} = 3.
Proof.
  assert ([0; 1] ≡ₚ elements ({[ 0; 1 ]} : gset Z)) as Hids.
  { replace (elements ({[ 0; 1 ]} : gset Z)) with [1; 0] by (by vm_compute).
    apply Permutation_swap. }
  destruct (getNumasReservedForReclaim_order Snapshot.mixed {[ 0; 1 ]} [0; 1] Hids)
    as [Horder Hexact].
  split; [exact Horder|]. rewrite Hexact; by vm_compute.
Defined.

Lemma getNumasReservedForReclaim_union_witness :
  getNumasReservedForReclaim Snapshot.mixed ({[ 0 ]} ∪ {[ 1 ]}) =
  GoInt.add (getNumasReservedForReclaim Snapshot.mixed {[ 0 ]})
    (getNumasReservedForReclaim Snapshot.mixed {[ 1 ]}).
Proof.
  apply getNumasReservedForReclaim_union.
  apply disjoint_singleton_l, not_elem_of_singleton. done.
Defined.

Lemma getNumasReservedForReclaim_frame_witness :
  getNumasReservedForReclaim
    (withReserved Snapshot.mixed {[ 1 := 2; 3 := 0; 7 := 9 ]}) {[ 1; 3 ]} =
  getNumasReservedForReclaim Snapshot.mixed {[ 1; 3 ]}.
Proof.
  apply (getNumasReservedForReclaim_frame Snapshot.mixed).
  intros id [->%elem_of_singleton | ->%elem_of_singleton]%elem_of_union; reflexivity.
Defined.

Lemma AssembleProvision_order_witness :
  ∃ result,
    (AssembleProvision (regulate scaleDown) Snapshot.mixed 1).1
      = Returned result true None
    ∧ (AssembleProvision (regulate scaleDown)
         (withRegionMap Snapshot.mixed (reverse Snapshot.mixedRegions)) 1).1
      = Returned result true None.
Proof.
  eexists. split; [reflexivity|].
  apply AssembleProvision_order.
  - symmetry. apply reverse_Permutation.
  - apply (bool_decide_unpack _). by vm_compute.
  - reflexivity.
Defined.

Lemma AssembleProvision_entries_witness :
  ∃ result,
    (AssembleProvision (regulate scaleDown) Snapshot.mixed 1).1
      = Returned result true None
    ∧ TimeStamp result = 1
    ∧ poolEntry result "share" FakedNUMAID = Some 5
    ∧ poolEntry result "isolation-1" FakedNUMAID = Some 3
    ∧ poolEntry result "reserve" FakedNUMAID = Some 2
    ∧ poolEntry result "share" 0 = None
    ∧ poolEntry result "other" FakedNUMAID = None
    ∧ poolEntry result PoolNameReclaim 1 = None.
Proof.
  eexists. split; [reflexivity|].
  pose proof (AssembleProvision_entries (regulate scaleDown) Snapshot.mixed 1 _ true _
                eq_refl eq_refl) as (Htime & Hentries & Hreclaim).
  split; [exact Htime|].
  split; [by rewrite Hentries by done|]. split; [by rewrite Hentries by done|].
  split; [by rewrite Hentries by done|]. split; [by rewrite Hentries by done|].
  split; [by rewrite Hentries by done|].
  apply Hreclaim; [done|]. repeat constructor; by vm_compute.
Defined.

Lemma AssembleProvision_reclaim_floor_witness :
  ∃ result,
    (AssembleProvision (regulate scaleDown) Snapshot.mixed 1).1
      = Returned result true None
    ∧ getNumasReservedForReclaim Snapshot.mixed (nonBindingNumas Snapshot.mixed) = 2
    ∧ poolEntry result PoolNameReclaim FakedNUMAID = Some 4.
Proof.
  eexists. split; [reflexivity|]. split; [reflexivity|].
  destruct (AssembleProvision_reclaim_floor (regulate scaleDown) Snapshot.mixed 1 _ true _
              eq_refl eq_refl eq_refl) as (size & Hentry & -> & _);
    [by vm_compute..|].
  exact Hentry.
Defined.

Lemma AssembleProvision_demand_witness :
  ∃ l,
    (rangeRegionMap Snapshot.mixed true Snapshot.mixedRegions
       (initLocals Snapshot.mixed 1)).1 = Continue l
    ∧ shareAndIsolatePoolSizes Snapshot.mixed l !! "share" = Some 5
    ∧ shareAndIsolatePoolSizes Snapshot.mixed l !! "isolation-1" = Some 3.
Proof.
  eexists. split; [reflexivity|].
  destruct (AssembleProvision_demand Snapshot.mixed 1 _ eq_refl) as [_ Hsizes].
  assert (NoDup (demandKeys (regionMap Snapshot.mixed))) as Hnodup.
  { apply (bool_decide_unpack _). by vm_compute. }
  split.
  - refine (proj1 (Hsizes Hnodup (Scenario.shareRegion "share" 5) _) eq_refl). left.
  - refine (proj2 (Hsizes Hnodup (Snapshot.isolationRegion "isolation-1" 3 2) _) eq_refl).
    right; left.
Defined.

Lemma AssembleProvision_totals_witness :
  ∃ l,
    (rangeRegionMap Scenario.collidingShares true (regionMap Scenario.collidingShares)
       (initLocals Scenario.collidingShares 1)).1 = Continue l
    ∧ shares l = 5
    ∧ sharePoolSizes l = {[ "share"%string := 10 ]}.
Proof.
  eexists. split; [reflexivity|].
  destruct (AssembleProvision_totals Scenario.collidingShares 1 _ eq_refl)
    as (Hshares & _ & _).
  split; [rewrite Hshares; by vm_compute|by vm_compute].
Defined.

(** ** The resource advisor wrapper *)

Module RegistryFacts.

Import Registry.

(** The sub advisors a loop that comes to its end has registered. *)
Lemma newSubAdvisors_lookup pkg resourceAdvisors subAdvisors ra resourceName :
  newSubAdvisors pkg resourceAdvisors subAdvisors = (Some ra, None) →
  subAdvisorsToRun ra !! resourceName =
  if decide (resourceName ∈ resourceAdvisors)
  then Some (NewSubResourceAdvisor pkg resourceName).1
  else subAdvisors !! resourceName.
Proof.
  revert subAdvisors.
  induction resourceAdvisors as [|name rest IH]; intros subAdvisors; cbn.
  - intros [= <-]. by rewrite decide_False by apply not_elem_of_nil.
  - destruct (NewSubResourceAdvisor pkg name) as [subAdvisor [err|]] eqn:Hnew; [done|].
    intros Hrest. rewrite (IH _ Hrest).
    destruct (decide (resourceName ∈ rest)) as [Hin|Hnotin].
    + by rewrite decide_True by (by right).
    + destruct (decide (resourceName = name)) as [->|Hname].
      * rewrite decide_True by left. by rewrite lookup_insert_eq, Hnew.
      * rewrite lookup_insert_ne by done.
        by rewrite decide_False by (by intros [?|?]%elem_of_cons).
Qed.

Lemma newSubAdvisors_outcome pkg resourceAdvisors subAdvisors :
  (Forall (λ name, (NewSubResourceAdvisor pkg name).2 = None) resourceAdvisors
   ∧ ∃ ra, newSubAdvisors pkg resourceAdvisors subAdvisors = (Some ra, None))
  ∨ (∃ pre name post err,
       resourceAdvisors = pre ++ name :: post
       ∧ Forall (λ name, (NewSubResourceAdvisor pkg name).2 = None) pre
       ∧ (NewSubResourceAdvisor pkg name).2 = Some err
       ∧ newSubAdvisors pkg resourceAdvisors subAdvisors
         = (None, Some (NewSubAdvisorFailed name err))).
Proof.
  revert subAdvisors.
  induction resourceAdvisors as [|name rest IH]; intros subAdvisors; cbn.
  - left. split; [constructor|eauto].
  - destruct (NewSubResourceAdvisor pkg name) as [subAdvisor [err|]] eqn:Hnew.
    + right. exists [], name, rest, err. by rewrite Hnew.
    + destruct (IH (<[name := subAdvisor]> subAdvisors))
        as [[Hall [ra Hra]] | (pre & name' & post & err & -> & Hpre & Hfail & Hnil)].
      * left. split; [|eauto]. constructor; [by rewrite Hnew|done].
      * right. exists (name :: pre), name', post, err.
        split; [done|]. split; [|done]. constructor; [by rewrite Hnew|done].
Qed.

(** X9.  [NewResourceAdvisor] returns a wrapper and no error when the sub
    advisor of every configured name can be made; otherwise it returns nil
    and the error of the first name, in the order of the configuration, whose
    sub advisor cannot be made, wrapped with that name.  It never returns
    both or neither.  A configured name that is neither the CPU nor the
    memory resource makes it fail. *)
Theorem NewResourceAdvisor_outcome (pkg : Packages) (resourceAdvisors : list string) :
  ((Forall (λ name, (NewSubResourceAdvisor pkg name).2 = None) resourceAdvisors
    ∧ ∃ ra, NewResourceAdvisor pkg resourceAdvisors = (Some ra, None))
   ∨ (∃ pre name post err,
        resourceAdvisors = pre ++ name :: post
        ∧ Forall (λ name, (NewSubResourceAdvisor pkg name).2 = None) pre
        ∧ (NewSubResourceAdvisor pkg name).2 = Some err
        ∧ NewResourceAdvisor pkg resourceAdvisors
          = (None, Some (NewSubAdvisorFailed name err))))
  ∧ (∀ name,
       name ∈ resourceAdvisors →
       name ≠ QoSResourceCPU pkg → name ≠ QoSResourceMemory pkg →
       (NewResourceAdvisor pkg resourceAdvisors).1 = None).
Proof.
  split; [apply newSubAdvisors_outcome|].
  intros name Hin Hcpu Hmemory. unfold NewResourceAdvisor.
  destruct (newSubAdvisors_outcome pkg resourceAdvisors ∅)
    as [[Hall _] | (pre & name' & post & err & _ & _ & _ & ->)]; [|done].
  rewrite Forall_forall in Hall. specialize (Hall name Hin).
  unfold NewSubResourceAdvisor in Hall. by rewrite !decide_False in Hall by done.
Qed.

(** X10.  On the wrapper [NewResourceAdvisor] returns, [GetSubAdvisor] finds
    the configured names and no other: for a configured name it returns the
    sub advisor made for the name and no error, also when the configuration
    lists the name more than once, and for any other name it returns nil and
    the error that there is no sub advisor for the name. *)
Theorem GetSubAdvisor_NewResourceAdvisor
    (pkg : Packages) (resourceAdvisors : list string)
    (ra : resourceAdvisorWrapper) (resourceName : string) :
  NewResourceAdvisor pkg resourceAdvisors = (Some ra, None) →
  GetSubAdvisor ra resourceName =
  if decide (resourceName ∈ resourceAdvisors)
  then ((NewSubResourceAdvisor pkg resourceName).1, None)
  else (None, Some (NoSubResourceAdvisor resourceName)).
Proof.
  intros Hnew. unfold GetSubAdvisor.
  rewrite (newSubAdvisors_lookup _ _ _ _ resourceName Hnew).
  by case_decide.
Qed.

(** X11.  On the wrapper [NewResourceAdvisor] returns, [GetHeadroom] answers
    for the CPU and the memory resource of the Kubernetes API and for no
    other name: any other name gets the zero quantity and the error of an
    illegal resource; the CPU resource gets what the CPU sub advisor's
    [GetHeadroom] returns if the CPU resource is configured, and the zero
    quantity with the error that there is no sub advisor if it is not; the
    memory resource likewise.  The call panics only on a sub advisor that its
    constructor returned as nil without an error. *)
Theorem GetHeadroom_NewResourceAdvisor
    (pkg : Packages) (resourceAdvisors : list string) (ra : resourceAdvisorWrapper) :
  NewResourceAdvisor pkg resourceAdvisors = (Some ra, None) →
  (∀ resourceName,
     resourceName ≠ ResourceCPU pkg → resourceName ≠ ResourceMemory pkg →
     GetHeadroom pkg ra resourceName = Returns (0, Some (IllegalResource resourceName)))
  ∧ GetHeadroom pkg ra (ResourceCPU pkg) =
      (if decide (QoSResourceCPU pkg ∈ resourceAdvisors)
       then match (NewCPUResourceAdvisor pkg).1 with
            | Some subAdvisor => Returns (SubGetHeadroom subAdvisor)
            | None => Panics
            end
       else Returns (0, Some (NoSubResourceAdvisor (QoSResourceCPU pkg))))
  ∧ (ResourceMemory pkg ≠ ResourceCPU pkg →
     QoSResourceMemory pkg ≠ QoSResourceCPU pkg →
     GetHeadroom pkg ra (ResourceMemory pkg) =
       (if decide (QoSResourceMemory pkg ∈ resourceAdvisors)
        then match (NewMemoryResourceAdvisor pkg).1 with
             | Some subAdvisor => Returns (SubGetHeadroom subAdvisor)
             | None => Panics
             end
        else Returns (0, Some (NoSubResourceAdvisor (QoSResourceMemory pkg))))).
Proof.
  intros Hnew. split; [|split].
  - intros resourceName Hcpu Hmemory. unfold GetHeadroom.
    by rewrite !decide_False by done.
  - unfold GetHeadroom, getSubAdvisorHeadroom. rewrite decide_True by done.
    rewrite (newSubAdvisors_lookup _ _ _ _ _ Hnew). case_decide; [|done].
    unfold NewSubResourceAdvisor. rewrite decide_True by done.
    by destruct (NewCPUResourceAdvisor pkg).1.
  - intros Hresource Hname. unfold GetHeadroom, getSubAdvisorHeadroom.
    rewrite decide_False, decide_True by done.
    rewrite (newSubAdvisors_lookup _ _ _ _ _ Hnew). case_decide; [|done].
    unfold NewSubResourceAdvisor. rewrite decide_False, decide_True by done.
    by destruct (NewMemoryResourceAdvisor pkg).1.
Qed.

Lemma GetSubAdvisor_NewResourceAdvisor_witness :
  ∃ ra,
    NewResourceAdvisor upstream ["memory"; "cpu"; "memory"]%string = (Some ra, None)
    ∧ GetSubAdvisor ra "memory" = (Some memoryAdvisor, None)
    ∧ GetSubAdvisor ra "disk" = (None, Some (NoSubResourceAdvisor "disk")).
Proof.
  eexists. split; [reflexivity|]. split.
  - exact (GetSubAdvisor_NewResourceAdvisor upstream
             ["memory"; "cpu"; "memory"]%string _ "memory" eq_refl).
  - exact (GetSubAdvisor_NewResourceAdvisor upstream
             ["memory"; "cpu"; "memory"]%string _ "disk" eq_refl).
Defined.

Lemma GetHeadroom_NewResourceAdvisor_witness :
  ∃ ra,
    NewResourceAdvisor upstream ["cpu"]%string = (Some ra, None)
    ∧ GetHeadroom upstream ra "cpu" = Returns (12, None)
    ∧ GetHeadroom upstream ra "memory"
      = Returns (0, Some (NoSubResourceAdvisor "memory"))
    ∧ GetHeadroom upstream ra "disk" = Returns (0, Some (IllegalResource "disk")).
Proof.
  eexists. split; [reflexivity|].
  pose proof (GetHeadroom_NewResourceAdvisor upstream ["cpu"]%string _ eq_refl)
    as (Hillegal & Hcpu & Hmemory).
  split; [exact Hcpu|]. split; [by apply Hmemory|]. by apply Hillegal.
Defined.

End RegistryFacts.
(** ** The scenarios of section 8 of the specification *)

Module ScenarioExamples.

Import Scenario.

Example oneShare_result :
  ∃ result,
    (AssembleProvision (regulate scaleDown) oneShare 1).1 = Returned result true None
    ∧ poolEntry result "reserve" FakedNUMAID = Some 2
    ∧ poolEntry result "share" FakedNUMAID = Some 5
    ∧ poolEntry result "reclaim" FakedNUMAID = Some 6.
Proof. eexists. split; [ vm_compute; reflexivity | by vm_compute ]. Qed.

Example oneDedicated_result :
  ∃ result,
    (AssembleProvision (regulate scaleDown) (oneDedicated 3) 1).1
      = Returned result true None
    ∧ poolEntry result "reclaim" 0 = Some 3.
Proof. eexists. split; [ vm_compute; reflexivity | by vm_compute ]. Qed.

Example oneDedicated_no_reservation :
  ∃ result,
    (AssembleProvision (regulate scaleDown) (oneDedicated 0) 1).1
      = Returned result true None
    ∧ poolEntry result "reclaim" 0 = None.
Proof. eexists. split; [ vm_compute; reflexivity | by vm_compute ]. Qed.

End ScenarioExamples.
